(** * Verification of [vits/utils.py]

    A shallow embedding of the pitch quantizer [f0_to_coarse], of the
    checkpoint finder [latest_checkpoint_path] and of the checkpoint store
    [save_checkpoint] / [load_checkpoint], with the properties the
    specification states about them.

    Conventions.
    - A finite IEEE value is idealised as a real number ([R]); the two
      special values that [log] produces on a finite argument ([-inf] at
      zero and [nan] below it) are kept, because the masks and the final
      assertion of [f0_to_coarse] treat them differently from numbers.
    - An array or tensor is the list of its elements in C order: every
      operation [f0_to_coarse] uses is element-wise and keeps the shape.
    - A Python exception is a value of [exn]; a call returns a [result],
      and a call with effects is a function of the state it runs in.
    - Paths and parameter names are ASCII strings. *)

From Stdlib Require Import Reals Lra Lia ZArith List String Ascii Bool.
From stdpp Require Import gmap strings list.
Import ListNotations.

(** * Part I: the embedding *)

(** ** Python results and effects *)

Inductive exn : Set :=
| TypeError
| ValueError
| RuntimeError
| AssertionError
| IndexError
| KeyError
| AttributeError.

Inductive result (A : Type) : Type :=
| Ok (a : A)
| Raise (e : exn).
Arguments Ok {A} a.
Arguments Raise {A} e.

Definition rbind {A B} (r : result A) (k : A -> result B) : result B :=
  match r with
  | Ok a => k a
  | Raise e => Raise e
  end.

Notation "'let*' x ':=' r 'in' k" := (rbind r (fun x => k))
  (at level 10, x name, r at level 100, k at level 200).

(** A computation over a state [S]: an exception keeps the state reached. *)
Definition M (S A : Type) : Type := S -> result A * S.

Definition ret {S A} (a : A) : M S A := fun s => (Ok a, s).

Definition bind {S A B} (c : M S A) (k : A -> M S B) : M S B :=
  fun s =>
    match c s with
    | (Ok a, s') => k a s'
    | (Raise e, s') => (Raise e, s')
    end.

Definition raise {S A} (e : exn) : M S A := fun s => (Raise e, s).

Definition lift {S A} (r : result A) : M S A := fun s => (r, s).

Definition gets {S A} (f : S -> A) : M S A := fun s => (Ok (f s), s).

Definition modify {S} (f : S -> S) : M S unit := fun s => (Ok tt, f s).

Notation "'do' x <- c ; k" := (bind c (fun x => k))
  (at level 10, x name, c at level 100, k at level 200).
Notation "'exec' c ; k" := (bind c (fun _ => k))
  (at level 10, c at level 100, k at level 200).

(** ** The pitch quantizer *)

Open Scope R_scope.

(** *** Floating-point values *)

Inductive float : Type :=
| Fin (r : R)
| NegInf
| NaN.

(** [np.log] / [Tensor.log] on a finite argument. *)
Definition np_log (x : R) : float :=
  if Rlt_dec 0 x then Fin (ln x)
  else if Req_dec_T x 0 then NegInf
  else NaN.

(** [c * v] for a positive constant [c]. *)
Definition scale (c : R) (v : float) : float :=
  match v with
  | Fin r => Fin (c * r)
  | NegInf => NegInf
  | NaN => NaN
  end.

(** [(v - a) * b / d + 1], the arithmetic of the rescaling line. *)
Definition affine (a b d : R) (v : float) : float :=
  match v with
  | Fin r => Fin ((r - a) * b / d + 1)
  | NegInf => NegInf
  | NaN => NaN
  end.

(** [v > c] and [v <= c]; every comparison with [nan] is false. *)
Definition gt_num (c : R) (v : float) : bool :=
  match v with
  | Fin r => if Rlt_dec c r then true else false
  | NegInf => false
  | NaN => false
  end.

Definition le_num (c : R) (v : float) : bool :=
  match v with
  | Fin r => if Rle_dec r c then true else false
  | NegInf => true
  | NaN => false
  end.

(** The integer a cast gives for [nan] or [-inf] (the value on x86-64;
    other platforms give 0 or the 32-bit minimum, all below 1). *)
Definition int_min : Z := (- 2 ^ 63)%Z.

(** Truncation toward zero: [.long()] on a tensor. *)
Definition trunc (r : R) : Z :=
  if Rle_dec 0 r then Int_part r else (- Int_part (- r))%Z.

(** [np.rint]: to the nearest integer, ties to the even one. *)
Definition rint (r : R) : Z :=
  let n := Int_part r in
  let f := r - IZR n in
  if Rlt_dec f (1 / 2) then n
  else if Rlt_dec (1 / 2) f then (n + 1)%Z
  else if Z.even n then n else (n + 1)%Z.

(** [(v + 0.5).long()] *)
Definition torch_round (v : float) : Z :=
  match v with
  | Fin r => trunc (r + 1 / 2)
  | NegInf => int_min
  | NaN => int_min
  end.

(** [np.rint(v).astype(np.int)], where [np.int] is the alias of Python's
    [int] that numpy had up to version 1.23. *)
Definition numpy_round (v : float) : Z :=
  match v with
  | Fin r => rint r
  | NegInf => int_min
  | NaN => int_min
  end.

(** *** Containers *)

(** What [f0] can be: a bare number (a Python float, a numpy scalar or a
    0-d numpy array, which arithmetic turns into a numpy scalar), a numpy
    array, or a torch tensor (a 0-d tensor is a tensor with one element). *)
Inductive obj (A : Type) : Type :=
| Scalar (x : A)
| NdArray (xs : list A)
| Tensor (xs : list A).
Arguments Scalar {A} x.
Arguments NdArray {A} xs.
Arguments Tensor {A} xs.

Definition elems {A} (o : obj A) : list A :=
  match o with
  | Scalar x => [x]
  | NdArray xs => xs
  | Tensor xs => xs
  end.

(** [isinstance(o, torch.Tensor)] *)
Definition isinstance_Tensor {A} (o : obj A) : bool :=
  match o with
  | Tensor _ => true
  | _ => false
  end.

(** An element-wise operation (a ufunc, or arithmetic with a constant). *)
Definition omap {A B} (f : A -> B) (o : obj A) : obj B :=
  match o with
  | Scalar x => Scalar (f x)
  | NdArray xs => NdArray (map f xs)
  | Tensor xs => Tensor (map f xs)
  end.

(** The elements selected by a boolean mask, in order. *)
Fixpoint compress {A} (mask : list bool) (xs : list A) : list A :=
  match mask, xs with
  | m :: mask', x :: xs' =>
      if m then x :: compress mask' xs' else compress mask' xs'
  | _, _ => []
  end.

(** The selected positions of [xs] overwritten by the successive [vals]. *)
Fixpoint scatter {A} (mask : list bool) (xs vals : list A) : list A :=
  match mask, xs with
  | m :: mask', x :: xs' =>
      if m then
        match vals with
        | v :: vals' => v :: scatter mask' xs' vals'
        | [] => x :: scatter mask' xs' []
        end
      else x :: scatter mask' xs' vals
  | _, _ => xs
  end.

(** The selected positions of [xs] overwritten by one broadcast value. *)
Fixpoint fill {A} (mask : list bool) (xs : list A) (v : A) : list A :=
  match mask, xs with
  | m :: mask', x :: xs' => (if m then v else x) :: fill mask' xs' v
  | _, _ => xs
  end.

(** [o[mask]]: indexing a numpy scalar gives an array. *)
Definition getitem {A} (o : obj A) (mask : obj bool) : obj A :=
  match o with
  | Scalar x => NdArray (compress (elems mask) [x])
  | NdArray xs => NdArray (compress (elems mask) xs)
  | Tensor xs => Tensor (compress (elems mask) xs)
  end.

(** [o[mask] = vals]: a numpy scalar does not support item assignment. *)
Definition setitem {A} (o : obj A) (mask : obj bool) (vals : obj A)
  : result (obj A) :=
  match o with
  | Scalar _ => Raise TypeError
  | NdArray xs => Ok (NdArray (scatter (elems mask) xs (elems vals)))
  | Tensor xs => Ok (Tensor (scatter (elems mask) xs (elems vals)))
  end.

(** [o[mask] = v] for a number [v]. *)
Definition setitem_const {A} (o : obj A) (mask : obj bool) (v : A)
  : result (obj A) :=
  match o with
  | Scalar _ => Raise TypeError
  | NdArray xs => Ok (NdArray (fill (elems mask) xs v))
  | Tensor xs => Ok (Tensor (fill (elems mask) xs v))
  end.

(** [.max()] and [.min()]: an empty numpy array raises [ValueError], an
    empty tensor [RuntimeError]. *)
Definition reduce (op : Z -> Z -> Z) (o : obj Z) : result Z :=
  match elems o with
  | [] => Raise (if isinstance_Tensor o then RuntimeError else ValueError)
  | n :: ns => Ok (fold_left op ns n)
  end.

Definition omax : obj Z -> result Z := reduce Z.max.
Definition omin : obj Z -> result Z := reduce Z.min.

(** *** Module-level constants *)

Definition f0_bin : Z := 256.
Definition f0_max : R := 1100.
Definition f0_min : R := 50.
Definition f0_mel_min : R := 1127 * ln (1 + f0_min / 700).
Definition f0_mel_max : R := 1127 * ln (1 + f0_max / 700).

(** *** [f0_to_coarse] *)

(** The statements of the function, each on the value bound to [f0_mel]. *)

(** [f0_mel[f0_mel > 0] = (f0_mel[f0_mel > 0] - f0_mel_min) * (f0_bin - 2)
    / (f0_mel_max - f0_mel_min) + 1] *)
Definition rescale_step (f0_mel : obj float) : result (obj float) :=
  setitem f0_mel (omap (gt_num 0) f0_mel)
    (omap (affine f0_mel_min (IZR (f0_bin - 2)) (f0_mel_max - f0_mel_min))
       (getitem f0_mel (omap (gt_num 0) f0_mel))).

(** [f0_mel[f0_mel <= 1] = 1] *)
Definition floor_step (f0_mel : obj float) : result (obj float) :=
  setitem_const f0_mel (omap (le_num 1) f0_mel) (Fin 1).

(** [f0_mel[f0_mel > f0_bin - 1] = f0_bin - 1] *)
Definition ceil_step (f0_mel : obj float) : result (obj float) :=
  setitem_const f0_mel (omap (gt_num (IZR (f0_bin - 1))) f0_mel)
    (Fin (IZR (f0_bin - 1))).

(** [1127 * (1 + f0 / 700).log() if is_torch else
    1127 * np.log(1 + f0 / 700)] *)
Definition to_mel (is_torch : bool) (f0 : obj R) : obj float :=
  if is_torch then omap (fun x => scale 1127 (np_log (1 + x / 700))) f0
  else omap (fun x => scale 1127 (np_log (1 + x / 700))) f0.

(** [(f0_mel + 0.5).long() if is_torch else
    np.rint(f0_mel).astype(np.int)] *)
Definition round_step (is_torch : bool) (f0_mel : obj float) : obj Z :=
  if is_torch then omap torch_round f0_mel else omap numpy_round f0_mel.

(** [assert f0_coarse.max() <= 255 and f0_coarse.min() >= 1] *)
Definition assert_step (f0_coarse : obj Z) : result unit :=
  let* hi := omax f0_coarse in
  if (hi <=? 255)%Z then
    let* lo := omin f0_coarse in
    if (1 <=? lo)%Z then Ok tt else Raise AssertionError
  else Raise AssertionError.

Definition f0_to_coarse (f0 : obj R) : result (obj Z) :=
  let is_torch := isinstance_Tensor f0 in
  let f0_mel := to_mel is_torch f0 in
  let* f0_mel := rescale_step f0_mel in
  let* f0_mel := floor_step f0_mel in
  let* f0_mel := ceil_step f0_mel in
  let f0_coarse := round_step is_torch f0_mel in
  let* _ := assert_step f0_coarse in
  Ok f0_coarse.

(** *** What one element goes through *)

Definition mel (x : R) : float := scale 1127 (np_log (1 + x / 700)).

Definition rescale (v : float) : float :=
  if gt_num 0 v
  then affine f0_mel_min (IZR (f0_bin - 2)) (f0_mel_max - f0_mel_min) v
  else v.

Definition clamp_lo (v : float) : float := if le_num 1 v then Fin 1 else v.

Definition clamp_hi (v : float) : float :=
  if gt_num (IZR (f0_bin - 1)) v then Fin (IZR (f0_bin - 1)) else v.

Definition clamped (x : R) : float := clamp_hi (clamp_lo (rescale (mel x))).

Definition bin (is_torch : bool) (x : R) : Z :=
  if is_torch then torch_round (clamped x) else numpy_round (clamped x).

Definition in_range (n : Z) : Prop := (1 <= n <= 255)%Z.

Definition in_rangeb (n : Z) : bool := ((1 <=? n) && (n <=? 255))%Z.

(** The final assertion, on the list of finished bins. *)
Definition checked (wrap : list Z -> obj Z) (bins : list Z) : result (obj Z) :=
  match bins with
  | [] => Raise (if isinstance_Tensor (wrap []) then RuntimeError else ValueError)
  | _ :: _ =>
      if forallb in_rangeb bins then Ok (wrap bins) else Raise AssertionError
  end.

(** The same on real numbers, for a pitch [0 <= x]. *)
Definition mel_hz (x : R) : R := 1127 * ln (1 + x / 700).

Definition stretch_mel (m : R) : R :=
  (m - f0_mel_min) * IZR (f0_bin - 2) / (f0_mel_max - f0_mel_min) + 1.

Definition level (x : R) : R :=
  let m := mel_hz x in
  let m' := if Rlt_dec 0 m then stretch_mel m else m in
  if Rle_dec m' 1 then 1
  else if Rlt_dec (IZR (f0_bin - 1)) m' then IZR (f0_bin - 1)
  else m'.

(** An array of either library. *)
Definition array_of {A} (is_torch : bool) (xs : list A) : obj A :=
  if is_torch then Tensor xs else NdArray xs.

(** The data model's pitch values: non-negative frequencies. *)
Definition pitches (xs : list R) : Prop := Forall (fun x => 0 <= x) xs.

Close Scope R_scope.

(** *** The same call on a store of array objects *)

(** Python passes references: [f0] names an object that the caller still
    holds, and a masked assignment writes into the object it is applied to.
    A store maps a location to the object there; arithmetic, [log], the
    rounding step and the cast allocate their result. *)

Inductive cell : Type :=
| CReal (o : obj R)
| CFloat (o : obj float)
| CInt (o : obj Z).

Definition alloc (c : cell) : M (gmap nat cell) nat :=
  fun h => let l := fresh (dom h) in (Ok l, <[l := c]> h).

Definition read_real (l : nat) : M (gmap nat cell) (obj R) :=
  fun h =>
    match h !! l with
    | Some (CReal o) => (Ok o, h)
    | _ => (Raise TypeError, h)
    end.

Definition read_float (l : nat) : M (gmap nat cell) (obj float) :=
  fun h =>
    match h !! l with
    | Some (CFloat o) => (Ok o, h)
    | _ => (Raise TypeError, h)
    end.

Definition write (l : nat) (c : cell) : M (gmap nat cell) unit :=
  modify (fun h => <[l := c]> h).

(** A statement that assigns into the object at [l]. *)
Definition in_place (l : nat) (stmt : obj float -> result (obj float))
  : M (gmap nat cell) unit :=
  do o <- read_float l ;
  do o' <- lift (stmt o) ;
  write l (CFloat o').

Definition f0_to_coarse_heap (f0 : nat) : M (gmap nat cell) nat :=
  do x <- read_real f0 ;
  let is_torch := isinstance_Tensor x in
  do f0_mel <- alloc (CFloat (to_mel is_torch x)) ;
  exec in_place f0_mel rescale_step ;
  exec in_place f0_mel floor_step ;
  exec in_place f0_mel ceil_step ;
  do m <- read_float f0_mel ;
  do f0_coarse <- alloc (CInt (round_step is_torch m)) ;
  exec lift (assert_step (round_step is_torch m)) ;
  ret f0_coarse.

(** ** The checkpoint finder *)

(** [str.isdigit] on an ASCII character. *)
Definition isdigit (c : ascii) : bool :=
  let n := nat_of_ascii c in (48 <=? n)%nat && (n <=? 57)%nat.

(** ["".join(filter(p, s))] *)
Fixpoint filter_str (p : ascii -> bool) (s : string) : string :=
  match s with
  | EmptyString => EmptyString
  | String c s' => if p c then String c (filter_str p s') else filter_str p s'
  end.

Definition digit_val (c : ascii) : Z := Z.of_nat (nat_of_ascii c - 48).

Fixpoint int_digits (acc : Z) (s : string) : Z :=
  match s with
  | EmptyString => acc
  | String c s' => int_digits (10 * acc + digit_val c) s'
  end.

(** [int(s)] on a string of digits: the empty string is a [ValueError]. *)
Definition py_int (s : string) : result Z :=
  match s with
  | EmptyString => Raise ValueError
  | String _ _ => Ok (int_digits 0 s)
  end.

(** [lambda f: int("".join(filter(str.isdigit, f)))] *)
Definition sort_key (f : string) : result Z := py_int (filter_str isdigit f).

(** [list.sort(key=...)]: the keys of all elements are computed first, then
    the list is sorted by key, equal keys keeping their order. *)
Fixpoint decorate (key : string -> result Z) (l : list string)
  : result (list (Z * string)) :=
  match l with
  | [] => Ok []
  | f :: l' =>
      let* k := key f in
      let* d := decorate key l' in
      Ok ((k, f) :: d)
  end.

Fixpoint insert_keyed (x : Z * string) (l : list (Z * string))
  : list (Z * string) :=
  match l with
  | [] => [x]
  | y :: l' => if (fst x <=? fst y)%Z then x :: y :: l' else y :: insert_keyed x l'
  end.

Fixpoint sort_keyed (l : list (Z * string)) : list (Z * string) :=
  match l with
  | [] => []
  | x :: l' => insert_keyed x (sort_keyed l')
  end.

Definition list_sort (key : string -> result Z) (l : list string)
  : result (list string) :=
  let* d := decorate key l in
  Ok (map snd (sort_keyed d)).

(** [l[-1]] *)
Definition getitem_last (l : list string) : result string :=
  match last l with
  | Some x => Ok x
  | None => Raise IndexError
  end.

Definition ends_with_slash (s : string) : bool :=
  match last (list_ascii_of_string s) with
  | Some c => Ascii.eqb c "/"
  | None => false
  end.

(** [os.path.join(a, b)] of [posixpath]. *)
Definition os_path_join (a b : string) : string :=
  if String.prefix "/" b then b
  else if String.eqb a "" || ends_with_slash a then a +:+ b
  else a +:+ "/" +:+ b.

Definition print (line : string) : M (list string) unit :=
  modify (fun stdout => stdout ++ [line]).

Definition default_regex : string := "G_*.pth".

(** [glob_glob] is the file system's answer to [glob.glob]: the matching
    paths, in the order the directory lists them. The state is the text
    printed so far. *)
Definition latest_checkpoint_path (glob_glob : string -> list string)
    (dir_path regex : string) : M (list string) string :=
  let f_list := glob_glob (os_path_join dir_path regex) in
  do f_list <- lift (list_sort sort_key f_list) ;
  do x <- lift (getitem_last f_list) ;
  exec print x ;
  ret x.

(** A file system for examples: the paths that exist, in listing order, and
    patterns made of literal characters, [*] and [?]. *)
Fixpoint wild_match (p s : string) : bool :=
  match p with
  | EmptyString =>
      match s with
      | EmptyString => true
      | String _ _ => false
      end
  | String c p' =>
      if Ascii.eqb c "*" then
        (fix star (s : string) : bool :=
           wild_match p' s ||
           match s with
           | EmptyString => false
           | String _ s' => star s'
           end) s
      else
        match s with
        | EmptyString => false
        | String d s' => (Ascii.eqb c "?" || Ascii.eqb c d) && wild_match p' s'
        end
  end.

Definition listing_glob (paths : list string) (pattern : string) : list string :=
  List.filter (wild_match pattern) paths.

(** The sort key of a path that has a digit, and whether it has one. *)
Definition digits_key (f : string) : Z := int_digits 0 (filter_str isdigit f).

Definition has_digit (f : string) : bool :=
  match filter_str isdigit f with
  | EmptyString => false
  | String _ _ => true
  end.

(** Directories for the examples. *)
Definition three_checkpoints : list string :=
  ["ckpt/G_100.pth"%string; "ckpt/G_2000.pth"%string; "ckpt/G_300.pth"%string].

Definition named_checkpoint : list string := ["logs/G_best.pth"%string].

Definition tagged_checkpoints : list string :=
  ["ckpt/G_100.pth"%string; "ckpt/G_20_v3.pth"%string].


(** ** The checkpoint store *)

Section Store.
Context {tensor optim_state : Type}.

(** A [state_dict] is an ordered dictionary from parameter names to tensors:
    the items in insertion order, each key once. *)
Fixpoint dict_get (k : string) (d : list (string * tensor)) : option tensor :=
  match d with
  | [] => None
  | (k', v) :: d' => if String.eqb k k' then Some v else dict_get k d'
  end.

(** [d[k] = v]: an existing key keeps its place. *)
Fixpoint dict_set (k : string) (v : tensor) (d : list (string * tensor))
  : list (string * tensor) :=
  match d with
  | [] => [(k, v)]
  | (k', v') :: d' =>
      if String.eqb k k' then (k, v) :: d' else (k', v') :: dict_set k v d'
  end.

Definition dict_keys (d : list (string * tensor)) : list string := map fst d.

Definition dict_has (k : string) (d : list (string * tensor)) : bool :=
  match dict_get k d with
  | Some _ => true
  | None => false
  end.

(** [d[k]]: a missing key is a [KeyError]. *)
Definition dict_getitem (k : string) (d : list (string * tensor)) : result tensor :=
  match dict_get k d with
  | Some v => Ok v
  | None => Raise KeyError
  end.

(** A model is a network, or a wrapper ([DataParallel]) that holds the
    network in its [module] attribute; [parameters] is the state of the
    network itself. *)
Record nn_model : Type := {
  hasattr_module : bool;
  parameters : list (string * tensor)
}.

Definition Plain (state : list (string * tensor)) : nn_model :=
  {| hasattr_module := false; parameters := state |}.

Definition DataParallel (module_state : list (string * tensor)) : nn_model :=
  {| hasattr_module := true; parameters := module_state |}.

(** [model.module.state_dict()] when [hasattr(model, 'module')], else
    [model.state_dict()]. *)
Definition state_dict_of (model : nn_model) : list (string * tensor) :=
  if hasattr_module model then parameters model else parameters model.

(** [Module.load_state_dict(new)] with its default [strict=True]: a missing
    or an unexpected key is a [RuntimeError]; otherwise every parameter takes
    the value stored under its name. Sizes are not compared here;
    [load_state_dict_sized] below adds that. *)
Definition load_state_dict (own new : list (string * tensor))
  : result (list (string * tensor)) :=
  if forallb (fun k => dict_has k new) (dict_keys own)
     && forallb (fun k => dict_has k own) (dict_keys new)
  then Ok (map (fun kv => (fst kv, default (snd kv) (dict_get (fst kv) new))) own)
  else Raise RuntimeError.

Definition with_state (model : nn_model) (state : list (string * tensor))
  : nn_model :=
  {| hasattr_module := hasattr_module model; parameters := state |}.

(** [model.module.load_state_dict(new)] when [hasattr(model, 'module')],
    else [model.load_state_dict(new)]. *)
Definition model_load_state_dict (model : nn_model) (new : list (string * tensor))
  : result nn_model :=
  if hasattr_module model then
    let* state' := load_state_dict (parameters model) new in
    Ok (with_state model state')
  else
    let* state' := load_state_dict (parameters model) new in
    Ok (with_state model state').

(** The dictionary [save_checkpoint] writes and [load_checkpoint] reads;
    [None] is Python's [None]. *)
Record checkpoint : Type := {
  ck_model : list (string * tensor);
  ck_iteration : option Z;
  ck_optimizer : option optim_state;
  ck_learning_rate : option R
}.

(** The messages given to [logger.info]. *)
Inductive event : Type :=
| NotInCheckpoint (k : string)
| LoadedCheckpoint (checkpoint_path : string) (iteration : Z)
| SavingState (iteration : option Z) (checkpoint_path : string).

Record world : Type := {
  files : gmap string checkpoint;
  log : list event
}.

Definition logger_info (e : event) : M world unit :=
  modify (fun w => {| files := files w; log := log w ++ [e] |}).

Definition os_path_isfile (path : string) : M world bool :=
  gets (fun w => bool_decide (is_Some (files w !! path))).

Definition torch_load (path : string) : M world checkpoint :=
  fun w =>
    match files w !! path with
    | Some c => (Ok c, w)
    | None => (Raise RuntimeError, w)
    end.

Definition torch_save (c : checkpoint) (path : string) : M world unit :=
  modify (fun w => {| files := <[path := c]> (files w); log := log w |}).

(** The loop that builds [new_state_dict]: [try: new_state_dict[k] =
    saved_state_dict[k]], and on any exception the message and the current
    value. *)
Fixpoint restore_loop (saved_state_dict items new_state_dict : list (string * tensor))
  : M world (list (string * tensor)) :=
  match items with
  | [] => ret new_state_dict
  | (k, v) :: items' =>
      match dict_getitem k saved_state_dict with
      | Ok saved => restore_loop saved_state_dict items' (dict_set k saved new_state_dict)
      | Raise _ =>
          exec logger_info (NotInCheckpoint k) ;
          restore_loop saved_state_dict items' (dict_set k v new_state_dict)
      end
  end.

Definition load_checkpoint (checkpoint_path : string) (model : nn_model)
    (optimizer : option optim_state)
  : M world (nn_model * option optim_state * R * Z) :=
  do isfile <- os_path_isfile checkpoint_path ;
  if negb isfile then raise AssertionError else
  do checkpoint_dict <- torch_load checkpoint_path ;
  let iteration := ck_iteration checkpoint_dict in
  let learning_rate := ck_learning_rate checkpoint_dict in
  let iteration :=
    match iteration with
    | None => 1%Z
    | Some i => i
    end in
  let learning_rate :=
    match learning_rate with
    | None => 0.0002%R
    | Some lr => lr
    end in
  let optimizer :=
    match optimizer, ck_optimizer checkpoint_dict with
    | Some _, Some saved => Some saved
    | _, _ => optimizer
    end in
  let saved_state_dict := ck_model checkpoint_dict in
  let state_dict := state_dict_of model in
  do new_state_dict <- restore_loop saved_state_dict state_dict [] ;
  do model <- lift (model_load_state_dict model new_state_dict) ;
  exec logger_info (LoadedCheckpoint checkpoint_path iteration) ;
  ret (model, optimizer, learning_rate, iteration).

Definition save_checkpoint (model : nn_model) (optimizer : option optim_state)
    (learning_rate : option R) (iteration : option Z) (checkpoint_path : string)
  : M world unit :=
  exec logger_info (SavingState iteration checkpoint_path) ;
  let state_dict := state_dict_of model in
  do optimizer_state <-
    lift (match optimizer with
          | Some st => Ok st
          | None => Raise AttributeError
          end) ;
  torch_save {| ck_model := state_dict;
                ck_iteration := iteration;
                ck_optimizer := Some optimizer_state;
                ck_learning_rate := learning_rate |} checkpoint_path.

(** What the loop leaves in [new_state_dict], and the state a module with
    the items [state_dict] ends with: the saved value where there is one. *)
Definition restored (saved_state_dict items new_state_dict : list (string * tensor))
  : list (string * tensor) :=
  fold_left
    (fun d kv => dict_set (fst kv) (default (snd kv) (dict_get (fst kv) saved_state_dict)) d)
    items new_state_dict.

Definition merged (saved_state_dict state_dict : list (string * tensor))
  : list (string * tensor) :=
  map (fun kv => (fst kv, default (snd kv) (dict_get (fst kv) saved_state_dict)))
    state_dict.

(** The keys of the current state that the saved state lacks, in order. *)
Definition missing_keys (saved state_dict : list (string * tensor)) : list string :=
  List.filter (fun k => negb (dict_has k saved)) (dict_keys state_dict).

End Store.

Arguments nn_model : clear implicits.
Arguments checkpoint : clear implicits.
Arguments world : clear implicits.


Definition example_checkpoint : checkpoint Z unit :=
  {| ck_model := [("weight"%string, 10%Z)];
     ck_iteration := None;
     ck_optimizer := None;
     ck_learning_rate := None |}.

Definition example_world : world Z unit :=
  {| files := {[ "logs/G_1.pth"%string := example_checkpoint ]}; log := [] |}.

(** ** Further definitions for the pitch quantizer *)

(** The pitch whose rescaled mel value is exactly the bin [k]. *)
Definition pitch_of_bin (k : Z) : R :=
  (700 * (exp ((f0_mel_min + (IZR k - 1) * (f0_mel_max - f0_mel_min) / 254) / 1127)
          - 1))%R.

(** The values on which [log] is defined or gives [-inf]. *)
Definition loggable (xs : list R) : Prop := Forall (fun x => (-700 <= x)%R) xs.

(** ** Further examples for the checkpoint store *)


Definition bias_only_model : nn_model Z := DataParallel [("bias"%string, 2%Z)].




(** ** Tensor sizes *)

(** [load_state_dict] above compares names only. The library also compares
    sizes, and [load_checkpoint] hands it saved tensors under the names of
    the current parameters; the definitions below add that check. *)

Section Sizes.
Context {tensor optim_state : Type}.
Context (size : tensor -> list nat).

(** The parameters of [own] for which [new] has a tensor of another size,
    in order. *)
Definition size_mismatch (own new : list (string * tensor)) : list string :=
  dict_keys
    (List.filter
       (fun kv =>
          match dict_get (fst kv) new with
          | Some v => negb (bool_decide (size v = size (snd kv)))
          | None => false
          end)
       own).

(** [Module.load_state_dict(new)] with its default [strict=True]: a missing
    key, an unexpected key and a tensor whose size is not the parameter's are
    all collected, and any of them is a [RuntimeError]. *)
Definition load_state_dict_sized (own new : list (string * tensor))
  : result (list (string * tensor)) :=
  match size_mismatch own new with
  | [] => load_state_dict own new
  | _ :: _ => Raise RuntimeError
  end.

(** [model.module.load_state_dict(new)] when [hasattr(model, 'module')],
    else [model.load_state_dict(new)]. *)
Definition model_load_state_dict_sized (model : nn_model tensor)
    (new : list (string * tensor)) : result (nn_model tensor) :=
  if hasattr_module model then
    let* state' := load_state_dict_sized (parameters model) new in
    Ok (with_state model state')
  else
    let* state' := load_state_dict_sized (parameters model) new in
    Ok (with_state model state').

(** [load_checkpoint] with the size check of the library call at its end. *)
Definition load_checkpoint_sized (checkpoint_path : string)
    (model : nn_model tensor) (optimizer : option optim_state)
  : M (world tensor optim_state) (nn_model tensor * option optim_state * R * Z) :=
  do isfile <- os_path_isfile checkpoint_path ;
  if negb isfile then raise AssertionError else
  do checkpoint_dict <- torch_load checkpoint_path ;
  let iteration := ck_iteration checkpoint_dict in
  let learning_rate := ck_learning_rate checkpoint_dict in
  let iteration :=
    match iteration with
    | None => 1%Z
    | Some i => i
    end in
  let learning_rate :=
    match learning_rate with
    | None => 0.0002%R
    | Some lr => lr
    end in
  let optimizer :=
    match optimizer, ck_optimizer checkpoint_dict with
    | Some _, Some saved => Some saved
    | _, _ => optimizer
    end in
  let saved_state_dict := ck_model checkpoint_dict in
  let state_dict := state_dict_of model in
  do new_state_dict <- restore_loop saved_state_dict state_dict [] ;
  do model <- lift (model_load_state_dict_sized model new_state_dict) ;
  exec logger_info (LoadedCheckpoint checkpoint_path iteration) ;
  ret (model, optimizer, learning_rate, iteration).

End Sizes.

(** *** A run of saves *)

(** The arguments of one call of [save_checkpoint]. *)
Record save_call (tensor optim_state : Type) : Type := {
  call_model : nn_model tensor;
  call_optimizer : option optim_state;
  call_learning_rate : option R;
  call_iteration : option Z;
  call_path : string
}.

Arguments call_model {tensor optim_state}.
Arguments call_optimizer {tensor optim_state}.
Arguments call_learning_rate {tensor optim_state}.
Arguments call_iteration {tensor optim_state}.
Arguments call_path {tensor optim_state}.

(** The calls one after the other; a caller that catches the exception of
    one call goes on from the state that call left. *)
Fixpoint save_all {tensor optim_state : Type}
    (calls : list (save_call tensor optim_state)) (w : world tensor optim_state)
  : world tensor optim_state :=
  match calls with
  | [] => w
  | c :: calls' =>
      save_all calls'
        (snd (save_checkpoint (call_model c) (call_optimizer c)
                (call_learning_rate c) (call_iteration c) (call_path c) w))
  end.

(** *** Examples with sizes *)

(** Flat tensors: a list of entries, of size [[length]]. *)
Definition flat_size (v : list Z) : list nat := [length v].

(** A trained network, a fresh one that shares its [weight], and one whose
    [weight] has another size. *)
Definition trained_model : nn_model (list Z) :=
  Plain [("weight"%string, [5; 6]%Z); ("bias"%string, [7]%Z)].

Definition fresh_model : nn_model (list Z) :=
  DataParallel [("weight"%string, [0; 0]%Z); ("head"%string, [1]%Z)].

Definition narrow_model : nn_model (list Z) :=
  Plain [("weight"%string, [0]%Z); ("bias"%string, [0]%Z)].

Definition no_files : world (list Z) unit := {| files := ∅; log := [] |}.

(** A file system with one checkpoint, of the trained network. *)
Definition trained_checkpoint : checkpoint (list Z) unit :=
  {| ck_model := state_dict_of trained_model;
     ck_iteration := Some 2000%Z;
     ck_optimizer := Some tt;
     ck_learning_rate := Some 0.0001%R |}.

Definition trained_world : world (list Z) unit :=
  {| files := {[ "logs/G_2000.pth"%string := trained_checkpoint ]}; log := [] |}.


(** ** The metric sink *)

Section Summarize.
Context {scalar histogram image audio : Type}.

(** What a summary writer has been given, call by call. *)
Inductive writer_call : Type :=
| add_scalar (tag : string) (value : scalar) (global_step : Z)
| add_histogram (tag : string) (values : histogram) (global_step : Z)
| add_image (tag : string) (img : image) (global_step : Z) (dataformats : string)
| add_audio (tag : string) (sound : audio) (global_step : Z) (sample_rate : Z).

Definition call (c : writer_call) : M (list writer_call) unit :=
  modify (fun writer => writer ++ [c]).

(** [for k, v in d.items(): body] *)
Fixpoint for_items {S V} (items : list (string * V))
    (body : string -> V -> M S unit) : M S unit :=
  match items with
  | [] => ret tt
  | (k, v) :: items' => exec body k v ; for_items items' body
  end.

Definition default_audio_sampling_rate : Z := 22050.

Definition summarize (global_step : Z)
    (scalars : list (string * scalar)) (histograms : list (string * histogram))
    (images : list (string * image)) (audios : list (string * audio))
    (audio_sampling_rate : Z) : M (list writer_call) unit :=
  exec for_items scalars (fun k v => call (add_scalar k v global_step)) ;
  exec for_items histograms (fun k v => call (add_histogram k v global_step)) ;
  exec for_items images (fun k v => call (add_image k v global_step "HWC")) ;
  for_items audios (fun k v => call (add_audio k v global_step audio_sampling_rate)).

Definition step_of (c : writer_call) : Z :=
  match c with
  | add_scalar _ _ step => step
  | add_histogram _ _ step => step
  | add_image _ _ step _ => step
  | add_audio _ _ step _ => step
  end.

End Summarize.

Arguments writer_call : clear implicits.

(** ** The plotters and the module's plotting flag *)

Section Plot.
Context {array pixels : Type}.

(** A figure: its size in inches, the image shown in it with the options
    given to [imshow], and what the plotting calls have set. *)
Record figure : Type := {
  figsize : nat * nat;
  shown : option (array * bool);
  aspect : string;
  origin : string;
  interpolation : string;
  colorbar : bool;
  xlabel : string;
  ylabel : string;
  tight : bool;
  drawn : bool
}.

(** The state the plotters work on: the module's [MATPLOTLIB_FLAG], the
    backends given to [matplotlib.use] so far, the levels given to the
    [matplotlib] logger so far, and pyplot's open figures, the current one
    last. *)
Record pyplot : Type := {
  MATPLOTLIB_FLAG : bool;
  backends : list string;
  mpl_logger_levels : list string;
  figures : list figure
}.

Definition initial_pyplot : pyplot :=
  {| MATPLOTLIB_FLAG := false; backends := []; mpl_logger_levels := [];
     figures := [] |}.

(** The block both plotters start with. *)
Definition use_agg_once : M pyplot unit :=
  fun s =>
    if negb (MATPLOTLIB_FLAG s) then
      (Ok tt,
       {| MATPLOTLIB_FLAG := true;
          backends := backends s ++ ["Agg"%string];
          mpl_logger_levels := mpl_logger_levels s ++ ["WARNING"%string];
          figures := figures s |})
    else (Ok tt, s).

(** [plt.subplots(figsize=...)]: a new figure, which becomes current. *)
Definition subplots (size : nat * nat) : M pyplot unit :=
  modify (fun s =>
    {| MATPLOTLIB_FLAG := MATPLOTLIB_FLAG s; backends := backends s;
       mpl_logger_levels := mpl_logger_levels s;
       figures := figures s
                  ++ [{| figsize := size; shown := None; aspect := "";
                         origin := ""; interpolation := ""; colorbar := false;
                         xlabel := ""; ylabel := ""; tight := false;
                         drawn := false |}] |}).

(** A call on the current figure, which in both plotters is the figure
    that [subplots] has just made. *)
Definition on_current (change : figure -> figure) : M pyplot unit :=
  fun s =>
    match last (figures s) with
    | Some fig =>
        (Ok tt,
         {| MATPLOTLIB_FLAG := MATPLOTLIB_FLAG s; backends := backends s;
            mpl_logger_levels := mpl_logger_levels s;
            figures := removelast (figures s) ++ [change fig] |})
    | None => (Raise RuntimeError, s)
    end.

(** [ax.imshow(a, aspect=..., origin=..., interpolation=...)]; the flag says
    whether [a] was transposed first. *)
Definition imshow (a : array) (transposed : bool) (asp orig interp : string)
  : M pyplot unit :=
  on_current (fun fig =>
    {| figsize := figsize fig; shown := Some (a, transposed); aspect := asp;
       origin := orig; interpolation := interp; colorbar := colorbar fig;
       xlabel := xlabel fig; ylabel := ylabel fig; tight := tight fig;
       drawn := drawn fig |}).

Definition add_colorbar : M pyplot unit :=
  on_current (fun fig =>
    {| figsize := figsize fig; shown := shown fig; aspect := aspect fig;
       origin := origin fig; interpolation := interpolation fig; colorbar := true;
       xlabel := xlabel fig; ylabel := ylabel fig; tight := tight fig;
       drawn := drawn fig |}).

Definition set_xlabel (label : string) : M pyplot unit :=
  on_current (fun fig =>
    {| figsize := figsize fig; shown := shown fig; aspect := aspect fig;
       origin := origin fig; interpolation := interpolation fig;
       colorbar := colorbar fig; xlabel := label; ylabel := ylabel fig;
       tight := tight fig; drawn := drawn fig |}).

Definition set_ylabel (label : string) : M pyplot unit :=
  on_current (fun fig =>
    {| figsize := figsize fig; shown := shown fig; aspect := aspect fig;
       origin := origin fig; interpolation := interpolation fig;
       colorbar := colorbar fig; xlabel := xlabel fig; ylabel := label;
       tight := tight fig; drawn := drawn fig |}).

Definition tight_layout : M pyplot unit :=
  on_current (fun fig =>
    {| figsize := figsize fig; shown := shown fig; aspect := aspect fig;
       origin := origin fig; interpolation := interpolation fig;
       colorbar := colorbar fig; xlabel := xlabel fig; ylabel := ylabel fig;
       tight := true; drawn := drawn fig |}).

Definition canvas_draw : M pyplot unit :=
  on_current (fun fig =>
    {| figsize := figsize fig; shown := shown fig; aspect := aspect fig;
       origin := origin fig; interpolation := interpolation fig;
       colorbar := colorbar fig; xlabel := xlabel fig; ylabel := ylabel fig;
       tight := tight fig; drawn := true |}).

(** [np.fromstring(fig.canvas.tostring_rgb(), ...)] reshaped to height x
    width x 3: the pixels of the current figure, given by [rasterize]. *)
Definition canvas_pixels (rasterize : figure -> pixels) : M pyplot pixels :=
  fun s =>
    match last (figures s) with
    | Some fig => (Ok (rasterize fig), s)
    | None => (Raise RuntimeError, s)
    end.

(** [plt.close()]: closes the current figure. *)
Definition close : M pyplot unit :=
  modify (fun s =>
    {| MATPLOTLIB_FLAG := MATPLOTLIB_FLAG s; backends := backends s;
       mpl_logger_levels := mpl_logger_levels s;
       figures := removelast (figures s) |}).

Definition plot_spectrogram_to_numpy (rasterize : figure -> pixels)
    (spectrogram : array) : M pyplot pixels :=
  exec use_agg_once ;
  exec subplots (10, 2)%nat ;
  exec imshow spectrogram false "auto" "lower" "none" ;
  exec add_colorbar ;
  exec set_xlabel "Frames" ;
  exec set_ylabel "Channels" ;
  exec tight_layout ;
  exec canvas_draw ;
  do data <- canvas_pixels rasterize ;
  exec close ;
  ret data.

Definition plot_alignment_to_numpy (rasterize : figure -> pixels)
    (alignment : array) (info : option string) : M pyplot pixels :=
  exec use_agg_once ;
  exec subplots (6, 4)%nat ;
  exec imshow alignment true "auto" "lower" "none" ;
  exec add_colorbar ;
  let xlabel := "Decoder timestep"%string in
  let xlabel :=
    match info with
    | Some text => xlabel +:+ String "010" (String "010" text)
    | None => xlabel
    end in
  exec set_xlabel xlabel ;
  exec set_ylabel "Encoder timestep" ;
  exec tight_layout ;
  exec canvas_draw ;
  do data <- canvas_pixels rasterize ;
  exec close ;
  ret data.

(** The figures the two plotters draw. *)
Definition spectrogram_figure (spectrogram : array) : figure :=
  {| figsize := (10, 2)%nat; shown := Some (spectrogram, false);
     aspect := "auto"; origin := "lower"; interpolation := "none";
     colorbar := true; xlabel := "Frames"; ylabel := "Channels";
     tight := true; drawn := true |}.

Definition alignment_figure (alignment : array) (info : option string) : figure :=
  {| figsize := (6, 4)%nat; shown := Some (alignment, true);
     aspect := "auto"; origin := "lower"; interpolation := "none";
     colorbar := true;
     xlabel := match info with
               | Some text =>
                   "Decoder timestep" +:+ String "010" (String "010" text)
               | None => "Decoder timestep"
               end;
     ylabel := "Encoder timestep"; tight := true; drawn := true |}.

(** The state after a plotter has run in the state [s]. *)
Definition after_plot (s : pyplot) : pyplot :=
  {| MATPLOTLIB_FLAG := true;
     backends := if MATPLOTLIB_FLAG s then backends s
                 else backends s ++ ["Agg"%string];
     mpl_logger_levels := if MATPLOTLIB_FLAG s then mpl_logger_levels s
                          else mpl_logger_levels s ++ ["WARNING"%string];
     figures := figures s |}.

(** The states the module can be in: the initial one and those a plotter
    leaves behind. *)
Inductive plotted (rasterize : figure -> pixels) : pyplot -> Prop :=
| plotted_initial : plotted rasterize initial_pyplot
| plotted_spectrogram s spectrogram :
    plotted rasterize s ->
    plotted rasterize (snd (plot_spectrogram_to_numpy rasterize spectrogram s))
| plotted_alignment s alignment info :
    plotted rasterize s ->
    plotted rasterize (snd (plot_alignment_to_numpy rasterize alignment info s)).

End Plot.

Arguments figure : clear implicits.
Arguments pyplot : clear implicits.

(** A renderer for the examples: the size of the canvas in pixels at 100
    dots per inch. *)
Definition canvas_size (fig : figure nat) : nat * nat :=
  (100 * fst (figsize fig), 100 * snd (figsize fig))%nat.


(** ** The logger bootstrap *)

(** [os.path.basename] of [posixpath]: what follows the last slash. *)
Fixpoint has_slash (p : string) : bool :=
  match p with
  | EmptyString => false
  | String c p' => Ascii.eqb c "/" || has_slash p'
  end.

Fixpoint os_path_basename (p : string) : string :=
  match p with
  | EmptyString => EmptyString
  | String c p' => if has_slash p then os_path_basename p' else p
  end.

(** The directories above [p]: its prefixes that end before a slash. *)
Fixpoint parents (before p : string) : list string :=
  match p with
  | EmptyString => []
  | String c p' =>
      (if Ascii.eqb c "/" && negb (String.eqb before "") then [before] else [])
      ++ parents (before +:+ String c EmptyString) p'
  end.

Inductive handler : Type :=
| StreamHandler (stream : string)
| FileHandler (filename level formatter : string).

(** A logger of the [logging] registry: its level, if one was set, and its
    handlers in the order they were added. *)
Record logger_state : Type := {
  logger_level : option string;
  logger_handlers : list handler
}.

(** The registry of named loggers (the root logger has the name [""]), the
    paths that exist, compared as written, and the logger the module-level
    variable [logger] is bound to, if [get_logger] has bound it. *)
Record logging_env : Type := {
  loggers : gmap string logger_state;
  existing : gset string;
  module_logger : option string
}.

(** [logging.getLogger(name)]: the logger of that name, made on first use. *)
Definition getLogger (name : string) : M logging_env string :=
  fun e =>
    match loggers e !! name with
    | Some _ => (Ok name, e)
    | None =>
        (Ok name,
         {| loggers := <[name := {| logger_level := None; logger_handlers := [] |}]> (loggers e);
            existing := existing e;
            module_logger := module_logger e |})
    end.

Definition bind_module_logger (name : string) : M logging_env unit :=
  modify (fun e =>
    {| loggers := loggers e; existing := existing e;
       module_logger := Some name |}).

Definition change_logger (name : string) (change : logger_state -> logger_state)
  : M logging_env unit :=
  modify (fun e =>
    {| loggers := alter change name (loggers e); existing := existing e;
       module_logger := module_logger e |}).

(** [logger.setLevel(lvl)] *)
Definition setLevel (name lvl : string) : M logging_env unit :=
  change_logger name (fun l =>
    {| logger_level := Some lvl; logger_handlers := logger_handlers l |}).

(** [logger.addHandler(h)], for a handler that is not attached yet. *)
Definition addHandler (name : string) (h : handler) : M logging_env unit :=
  change_logger name (fun l =>
    {| logger_level := logger_level l;
       logger_handlers := logger_handlers l ++ [h] |}).

Definition os_path_exists (path : string) : M logging_env bool :=
  gets (fun e => bool_decide (path ∈ existing e)).

(** [os.makedirs(path)]: the directory and the missing ones above it. *)
Definition os_makedirs (path : string) : M logging_env unit :=
  modify (fun e =>
    {| loggers := loggers e;
       existing := existing e ∪ list_to_set (parents "" path) ∪ {[ path ]};
       module_logger := module_logger e |}).

(** [logging.FileHandler(path)] opens the file for appending, which makes
    it exist; the new handler has no level and no formatter yet. *)
Definition new_FileHandler (path : string) : M logging_env handler :=
  fun e =>
    (Ok (FileHandler path "NOTSET" ""),
     {| loggers := loggers e; existing := existing e ∪ {[ path ]};
        module_logger := module_logger e |}).

Definition handler_setLevel (h : handler) (lvl : string) : handler :=
  match h with
  | StreamHandler stream => StreamHandler stream
  | FileHandler filename _ formatter => FileHandler filename lvl formatter
  end.

Definition handler_setFormatter (h : handler) (fmt : string) : handler :=
  match h with
  | StreamHandler stream => StreamHandler stream
  | FileHandler filename lvl _ => FileHandler filename lvl fmt
  end.

(** ["%(asctime)s\t%(name)s\t%(levelname)s\t%(message)s"] *)
Definition log_format : string :=
  "%(asctime)s" +:+ String "009" "%(name)s" +:+ String "009" "%(levelname)s"
  +:+ String "009" "%(message)s".

Definition default_filename : string := "train.log".

Definition get_logger (model_dir filename : string) : M logging_env string :=
  do logger <- getLogger (os_path_basename model_dir) ;
  exec bind_module_logger logger ;
  exec setLevel logger "DEBUG" ;
  let formatter := log_format in
  do there <- os_path_exists model_dir ;
  exec (if negb there then os_makedirs model_dir else ret tt) ;
  do h <- new_FileHandler (os_path_join model_dir filename) ;
  let h := handler_setLevel h "DEBUG" in
  let h := handler_setFormatter h formatter in
  exec addHandler logger h ;
  ret logger.

(** The handler [get_logger] attaches. *)
Definition log_handler (model_dir filename : string) : handler :=
  FileHandler (os_path_join model_dir filename) "DEBUG" log_format.

(** The handlers of the logger [name], none when there is no such logger. *)
Definition handlers_of (e : logging_env) (name : string) : list handler :=
  match loggers e !! name with
  | Some l => logger_handlers l
  | None => []
  end.

Definition empty_logging : logging_env :=
  {| loggers := ∅; existing := ∅; module_logger := None |}.

(** ** Resizing a spectrogram *)

(** A tensor with three dimensions: its sizes and the value at each index
    (only the values at indices inside the sizes matter). *)
Record tensor3 : Type := {
  channels : nat;
  rows : nat;
  cols : nat;
  value : nat -> nat -> nat -> R
}.

(** [t[:, :n, :]] *)
Definition first_rows (n : nat) (t : tensor3) : tensor3 :=
  {| channels := channels t; rows := Nat.min n (rows t); cols := cols t;
     value := value t |}.

(** [t[:, -1:, :]] *)
Definition last_row (t : tensor3) : tensor3 :=
  {| channels := channels t; rows := Nat.min 1 (rows t); cols := cols t;
     value := fun i j k => value t i (rows t - 1 + j) k |}.

(** [t.repeat(1, n, 1)] *)
Definition repeat_rows (n : nat) (t : tensor3) : tensor3 :=
  {| channels := channels t; rows := n * rows t; cols := cols t;
     value := fun i j k => value t i (j mod rows t) k |}.

(** [t += noise / 10] *)
Definition add_tenth (t noise : tensor3) : tensor3 :=
  {| channels := channels t; rows := rows t; cols := cols t;
     value := fun i j k => (value t i j k + value noise i j k / 10)%R |}.

(** [torch.cat((a, b), 1)]: the other two sizes must agree. *)
Definition cat_rows (a b : tensor3) : result tensor3 :=
  if (channels a =? channels b)%nat && (cols a =? cols b)%nat then
    Ok {| channels := channels a; rows := rows a + rows b; cols := cols a;
          value := fun i j k =>
            if (j <? rows a)%nat then value a i j k
            else value b i (j - rows a) k |}
  else Raise RuntimeError.

(** [resize] is [torchvision.transforms.functional.resize] and [randn_like]
    is [torch.randn_like]. *)
Definition transform (resize : tensor3 -> nat * nat -> tensor3)
    (randn_like : tensor3 -> tensor3) (mel : tensor3) (height : nat)
  : result tensor3 :=
  let tgt := resize mel (height, cols mel) in
  if (rows mel <=? height)%nat then Ok (first_rows (rows mel) tgt)
  else
    let silence := repeat_rows (rows mel - height) (last_row tgt) in
    let silence := add_tenth silence (randn_like silence) in
    cat_rows tgt silence.

(** What the code relies on: the result of [resize] has the sizes asked
    for. *)
Definition resizes (resize : tensor3 -> nat * nat -> tensor3) : Prop :=
  forall t size,
    channels (resize t size) = channels t
    /\ rows (resize t size) = fst size
    /\ cols (resize t size) = snd size.

(** A resize and a noise for the examples: nearest neighbour, and none. *)
Definition nearest_resize (t : tensor3) (size : nat * nat) : tensor3 :=
  {| channels := channels t; rows := fst size; cols := snd size;
     value := fun i j k =>
       value t i (j * rows t / fst size) (k * cols t / snd size) |}.

Definition no_noise (t : tensor3) : tensor3 :=
  {| channels := channels t; rows := rows t; cols := cols t;
     value := fun _ _ _ => 0%R |}.

Definition ramp : tensor3 :=
  {| channels := 1; rows := 80; cols := 100;
     value := fun _ j _ => INR j |}.

(** * Part II: properties *)

(** ** The pitch quantizer *)

Section Pitch.
Local Open Scope R_scope.

(** *** Masked assignment is element-wise *)

Lemma scatter_compress {A} (p : A -> bool) (f : A -> A) (xs : list A) :
  scatter (map p xs) xs (map f (compress (map p xs) xs))
  = map (fun x => if p x then f x else x) xs.
Proof.
  induction xs as [|x xs IH]; simpl; [reflexivity|].
  destruct (p x); simpl; now rewrite IH.
Qed.

Lemma fill_map {A} (p : A -> bool) (v : A) (xs : list A) :
  fill (map p xs) xs v = map (fun x => if p x then v else x) xs.
Proof.
  induction xs as [|x xs IH]; simpl; [reflexivity|].
  now rewrite IH.
Qed.

(** *** The final assertion *)

Lemma fold_max_le (c : Z) (ns : list Z) (n : Z) :
  (fold_left Z.max ns n <= c)%Z <-> (n <= c)%Z /\ Forall (fun m => (m <= c)%Z) ns.
Proof.
  revert n; induction ns as [|m ns IH]; intros n; simpl.
  - split; [intros H; split; [exact H | constructor] | tauto].
  - rewrite IH, Forall_cons_iff, Z.max_lub_iff. tauto.
Qed.

Lemma fold_min_ge (c : Z) (ns : list Z) (n : Z) :
  (c <= fold_left Z.min ns n)%Z <-> (c <= n)%Z /\ Forall (fun m => (c <= m)%Z) ns.
Proof.
  revert n; induction ns as [|m ns IH]; intros n; simpl.
  - split; [intros H; split; [exact H | constructor] | tauto].
  - rewrite IH, Forall_cons_iff, Z.min_glb_iff. tauto.
Qed.

Lemma in_rangeb_spec (n : Z) : in_rangeb n = true <-> in_range n.
Proof. unfold in_rangeb, in_range. rewrite andb_true_iff. lia. Qed.

Lemma forallb_in_range (bins : list Z) :
  forallb in_rangeb bins = true <-> Forall in_range bins.
Proof.
  rewrite forallb_forall, List.Forall_forall.
  split; intros H n Hn; apply in_rangeb_spec, H, Hn.
Qed.

Lemma extrema_in_range (n : Z) (ns : list Z) :
  forallb in_rangeb (n :: ns)
  = ((fold_left Z.max ns n <=? 255) && (1 <=? fold_left Z.min ns n))%Z.
Proof.
  apply eq_true_iff_eq.
  rewrite andb_true_iff, forallb_in_range, !Z.leb_le, fold_max_le, fold_min_ge.
  rewrite Forall_cons_iff. unfold in_range. split.
  - intros [Hn Hns]. rewrite List.Forall_forall in Hns.
    repeat split; try lia; apply List.Forall_forall; intros m Hm;
      specialize (Hns m Hm); simpl in *; lia.
  - intros [[Hn Hhi] [Hn' Hlo]]. split; [lia|].
    rewrite List.Forall_forall in Hhi, Hlo. apply List.Forall_forall.
    intros m Hm. specialize (Hhi m Hm). specialize (Hlo m Hm). simpl in *. lia.
Qed.

Lemma assertion_checked (wrap : list Z -> obj Z) (bins : list Z) :
  (forall ns, elems (wrap ns) = ns) ->
  (let* _ := assert_step (wrap bins) in Ok (wrap bins)) = checked wrap bins.
Proof.
  intros Hel. unfold assert_step, omax, omin, reduce, checked. rewrite Hel.
  destruct bins as [|n ns]; simpl rbind.
  - reflexivity.
  - rewrite extrema_in_range.
    destruct (fold_left Z.max ns n <=? 255)%Z; simpl; [|reflexivity].
    destruct (1 <=? fold_left Z.min ns n)%Z; reflexivity.
Qed.

(** *** The call, element by element *)

(** [f0_to_coarse] on an array is the element-wise [bin], then the check. *)
Lemma f0_to_coarse_NdArray (xs : list R) :
  f0_to_coarse (NdArray xs) = checked NdArray (map (bin false) xs).
Proof.
  unfold f0_to_coarse, rescale_step, floor_step, ceil_step, to_mel, round_step.
  cbn [isinstance_Tensor omap getitem setitem elems rbind].
  rewrite scatter_compress.
  cbn [setitem_const omap elems rbind]. rewrite fill_map.
  cbn [setitem_const omap elems rbind]. rewrite fill_map.
  rewrite !map_map.
  apply (assertion_checked NdArray). reflexivity.
Qed.

Lemma f0_to_coarse_Tensor (xs : list R) :
  f0_to_coarse (Tensor xs) = checked Tensor (map (bin true) xs).
Proof.
  unfold f0_to_coarse, rescale_step, floor_step, ceil_step, to_mel, round_step.
  cbn [isinstance_Tensor omap getitem setitem elems rbind].
  rewrite scatter_compress.
  cbn [setitem_const omap elems rbind]. rewrite fill_map.
  cbn [setitem_const omap elems rbind]. rewrite fill_map.
  rewrite !map_map.
  apply (assertion_checked Tensor). reflexivity.
Qed.

(** On a bare number the first masked assignment fails. *)
Lemma f0_to_coarse_Scalar (x : R) : f0_to_coarse (Scalar x) = Raise TypeError.
Proof. reflexivity. Qed.

(** *** Floors and logarithms *)

Lemma floor_bounds (r : R) : IZR (Int_part r) <= r < IZR (Int_part r) + 1.
Proof. destruct (base_Int_part r). lra. Qed.

Lemma Int_part_IZR (n : Z) : Int_part (IZR n) = n.
Proof. symmetry. apply Int_part_spec. lra. Qed.

Lemma Int_part_mono (x y : R) : x <= y -> (Int_part x <= Int_part y)%Z.
Proof.
  intros Hxy. destruct (floor_bounds x) as [Hx _], (floor_bounds y) as [_ Hy].
  apply Z.lt_succ_r, lt_IZR. rewrite succ_IZR. lra.
Qed.

Lemma Int_part_between (lo hi : Z) (r : R) :
  IZR lo <= r -> r < IZR hi + 1 -> (lo <= Int_part r <= hi)%Z.
Proof.
  intros Hlo Hhi. destruct (floor_bounds r) as [H1 H2]. split.
  - apply Z.lt_succ_r, lt_IZR. rewrite succ_IZR. lra.
  - apply Z.lt_succ_r, lt_IZR. rewrite succ_IZR. lra.
Qed.

Lemma ln_ratio_pos (x : R) : 0 < x -> 0 < ln (1 + x / 700).
Proof. intros Hx. rewrite <- ln_1. apply ln_increasing; lra. Qed.

Lemma ln_ratio_mono (x y : R) :
  0 <= x -> x <= y -> ln (1 + x / 700) <= ln (1 + y / 700).
Proof.
  intros Hx Hxy. destruct (Req_dec x y) as [->|Hne]; [lra|].
  left. apply ln_increasing; lra.
Qed.

Lemma f0_mel_min_pos : 0 < f0_mel_min.
Proof.
  unfold f0_mel_min, f0_min. pose proof (ln_ratio_pos 50 ltac:(lra)). lra.
Qed.

Lemma f0_mel_span_pos : 0 < f0_mel_max - f0_mel_min.
Proof.
  unfold f0_mel_max, f0_mel_min, f0_max, f0_min.
  assert (ln (1 + 50 / 700) < ln (1 + 1100 / 700)) by (apply ln_increasing; lra).
  lra.
Qed.

(** *** The clamped value of a pitch *)

Lemma f0_bin_top : IZR (f0_bin - 1) = 255.
Proof. reflexivity. Qed.

Lemma f0_bin_width : IZR (f0_bin - 2) = 254.
Proof. reflexivity. Qed.

Lemma mel_nonneg (x : R) : 0 <= x -> mel x = Fin (mel_hz x).
Proof.
  intros Hx. unfold mel, mel_hz, np_log.
  destruct (Rlt_dec 0 (1 + x / 700)); [reflexivity | lra].
Qed.

Lemma clamped_nonneg (x : R) : 0 <= x -> clamped x = Fin (level x).
Proof.
  intros Hx. unfold clamped, level. rewrite (mel_nonneg x Hx).
  unfold rescale, gt_num, affine, clamp_lo, le_num, clamp_hi, gt_num. fold (stretch_mel (mel_hz x)).
  destruct (Rlt_dec 0 (mel_hz x)).
  - destruct (Rle_dec (stretch_mel (mel_hz x)) 1).
    + destruct (Rlt_dec (IZR (f0_bin - 1)) 1) as [H|H]; [|reflexivity].
      rewrite f0_bin_top in H. lra.
    + destruct (Rlt_dec (IZR (f0_bin - 1)) (stretch_mel (mel_hz x))); reflexivity.
  - destruct (Rle_dec (mel_hz x) 1).
    + destruct (Rlt_dec (IZR (f0_bin - 1)) 1) as [H|H]; [|reflexivity].
      rewrite f0_bin_top in H. lra.
    + destruct (Rlt_dec (IZR (f0_bin - 1)) (mel_hz x)); reflexivity.
Qed.

Lemma level_range (x : R) : 1 <= level x <= 255.
Proof.
  unfold level. rewrite f0_bin_top.
  repeat match goal with |- context [if ?d then _ else _] => destruct d end; lra.
Qed.

Lemma stretch_mel_mono (m m' : R) : m <= m' -> stretch_mel m <= stretch_mel m'.
Proof.
  intros Hm. unfold stretch_mel. rewrite f0_bin_width.
  pose proof f0_mel_span_pos as Hd.
  assert (Hk : 0 < / (f0_mel_max - f0_mel_min)) by now apply Rinv_0_lt_compat.
  unfold Rdiv. nra.
Qed.

Lemma stretch_mel_min : stretch_mel f0_mel_min = 1.
Proof. unfold stretch_mel. unfold Rdiv. ring. Qed.

Lemma stretch_mel_max : stretch_mel f0_mel_max = 255.
Proof.
  unfold stretch_mel. rewrite f0_bin_width.
  pose proof f0_mel_span_pos. field. lra.
Qed.

Lemma mel_hz_mono (x y : R) : 0 <= x -> x <= y -> mel_hz x <= mel_hz y.
Proof.
  intros Hx Hxy. unfold mel_hz. pose proof (ln_ratio_mono x y Hx Hxy). lra.
Qed.

Lemma level_mono (x y : R) : 0 <= x -> x <= y -> level x <= level y.
Proof.
  intros Hx Hxy. pose proof (mel_hz_mono x y Hx Hxy) as Hm.
  pose proof (stretch_mel_mono _ _ Hm) as Hs.
  unfold level. rewrite f0_bin_top.
  destruct (Rlt_dec 0 (mel_hz x)), (Rlt_dec 0 (mel_hz y));
  repeat match goal with |- context [if ?d then _ else _] => destruct d end; lra.
Qed.

(** *** Rounding *)

Ltac case_if :=
  match goal with
  | |- context [if ?d then _ else _] => destruct d
  end.

Lemma rint_range (r : R) : 1 <= r <= 255 -> in_range (rint r).
Proof.
  intros [Hlo Hhi]. unfold rint, in_range.
  destruct (floor_bounds r) as [Hn Hn'].
  destruct (Int_part_between 1 255 r) as [H1 H2]; [lra | lra |].
  repeat case_if; try lia.
  - assert (IZR (Int_part r) < 255) by lra.
    assert (Int_part r < 255)%Z by now apply lt_IZR. lia.
  - assert (IZR (Int_part r) < 255) by lra.
    assert (Int_part r < 255)%Z by now apply lt_IZR. lia.
Qed.

Lemma trunc_nonneg (r : R) : 0 <= r -> trunc r = Int_part r.
Proof. intros Hr. unfold trunc. destruct (Rle_dec 0 r); [reflexivity | lra]. Qed.

Lemma trunc_half_range (r : R) : 1 <= r <= 255 -> in_range (trunc (r + 1 / 2)).
Proof.
  intros [Hlo Hhi]. rewrite trunc_nonneg by lra. unfold in_range.
  apply Int_part_between; lra.
Qed.

Lemma rint_mono (x y : R) : x <= y -> (rint x <= rint y)%Z.
Proof.
  intros Hxy. pose proof (Int_part_mono x y Hxy) as Hn.
  unfold rint. destruct (Z.eq_dec (Int_part x) (Int_part y)) as [E|NE].
  - rewrite <- E. repeat case_if; first [lia | exfalso; lra].
  - repeat case_if; lia.
Qed.

Lemma trunc_half_mono (x y : R) :
  0 <= x -> x <= y -> (trunc (x + 1 / 2) <= trunc (y + 1 / 2))%Z.
Proof.
  intros Hx Hxy. rewrite !trunc_nonneg by lra. apply Int_part_mono. lra.
Qed.

Lemma rint_IZR (n : Z) : rint (IZR n) = n.
Proof.
  unfold rint. rewrite Int_part_IZR.
  destruct (Rlt_dec (IZR n - IZR n) (1 / 2)); [reflexivity | lra].
Qed.

Lemma trunc_half_IZR (n : Z) : (0 <= n)%Z -> trunc (IZR n + 1 / 2) = n.
Proof.
  intros Hn. apply IZR_le in Hn. rewrite trunc_nonneg by lra.
  symmetry. apply Int_part_spec. lra.
Qed.

Lemma bin_nonneg (is_torch : bool) (x : R) :
  0 <= x ->
  bin is_torch x = if is_torch then trunc (level x + 1 / 2) else rint (level x).
Proof. intros Hx. unfold bin. now rewrite (clamped_nonneg x Hx). Qed.

Lemma bin_in_range (is_torch : bool) (x : R) : 0 <= x -> in_range (bin is_torch x).
Proof.
  intros Hx. rewrite (bin_nonneg _ x Hx). pose proof (level_range x).
  destruct is_torch; [now apply trunc_half_range | now apply rint_range].
Qed.

Lemma bin_mono (is_torch : bool) (x y : R) :
  0 <= x -> x <= y -> (bin is_torch x <= bin is_torch y)%Z.
Proof.
  intros Hx Hxy. rewrite !bin_nonneg by lra.
  pose proof (level_mono x y Hx Hxy). pose proof (level_range x).
  destruct is_torch; [apply trunc_half_mono; lra | now apply rint_mono].
Qed.

(** *** Arrays of pitches *)

Lemma f0_to_coarse_array (is_torch : bool) (xs : list R) :
  f0_to_coarse (array_of is_torch xs)
  = checked (array_of is_torch) (map (bin is_torch) xs).
Proof.
  destruct is_torch; [apply f0_to_coarse_Tensor | apply f0_to_coarse_NdArray].
Qed.

Lemma checked_ok (wrap : list Z -> obj Z) (bins : list Z) :
  bins <> [] -> Forall in_range bins -> checked wrap bins = Ok (wrap bins).
Proof.
  intros Hne Hall. unfold checked. destruct bins as [|b bins]; [congruence|].
  apply forallb_in_range in Hall. now rewrite Hall.
Qed.

Lemma checked_inv (wrap : list Z -> obj Z) (bins : list Z) (r : obj Z) :
  checked wrap bins = Ok r -> r = wrap bins /\ bins <> [] /\ Forall in_range bins.
Proof.
  unfold checked. destruct bins as [|b bins]; [discriminate|].
  destruct (forallb in_rangeb (b :: bins)) eqn:E; [|discriminate].
  intros [= <-]. apply forallb_in_range in E. now repeat split.
Qed.

Lemma bins_in_range (is_torch : bool) (xs : list R) :
  pitches xs -> Forall in_range (map (bin is_torch) xs).
Proof.
  intros Hxs. apply List.Forall_map.
  eapply List.Forall_impl; [|exact Hxs]. intros x Hx. now apply bin_in_range.
Qed.

(** On pitches the call returns the element-wise bins. *)
Lemma f0_to_coarse_pitches (is_torch : bool) (xs : list R) :
  xs <> [] -> pitches xs ->
  f0_to_coarse (array_of is_torch xs)
  = Ok (array_of is_torch (map (bin is_torch) xs)).
Proof.
  intros Hne Hxs. rewrite f0_to_coarse_array. apply checked_ok.
  - destruct xs; [congruence | discriminate].
  - now apply bins_in_range.
Qed.

Lemma level_low (x : R) : 0 <= x -> x <= f0_min -> level x = 1.
Proof.
  intros Hx Hlo. pose proof (mel_hz_mono x f0_min Hx Hlo) as Hm.
  pose proof (stretch_mel_mono _ _ Hm) as Hs.
  change (mel_hz f0_min) with f0_mel_min in Hs. rewrite stretch_mel_min in Hs.
  unfold level. rewrite f0_bin_top.
  destruct (Rlt_dec 0 (mel_hz x)); repeat case_if; lra.
Qed.

Lemma level_high (x : R) : f0_max <= x -> level x = 255.
Proof.
  intros Hhi. assert (Hpos : 0 <= f0_max) by (unfold f0_max; lra).
  pose proof (mel_hz_mono f0_max x Hpos Hhi) as Hm.
  pose proof (stretch_mel_mono _ _ Hm) as Hs.
  change (mel_hz f0_max) with f0_mel_max in Hs. rewrite stretch_mel_max in Hs.
  assert (0 < mel_hz x).
  { pose proof f0_mel_min_pos. pose proof f0_mel_span_pos.
    change (mel_hz f0_max) with f0_mel_max in Hm. lra. }
  unfold level. rewrite f0_bin_top.
  destruct (Rlt_dec 0 (mel_hz x)); repeat case_if; lra.
Qed.

Lemma bin_low (is_torch : bool) (x : R) :
  0 <= x -> x <= f0_min -> bin is_torch x = 1%Z.
Proof.
  intros Hx Hlo. rewrite bin_nonneg, level_low by assumption.
  destruct is_torch; [now apply (trunc_half_IZR 1) | apply (rint_IZR 1)].
Qed.

Lemma bin_high (is_torch : bool) (x : R) : f0_max <= x -> bin is_torch x = 255%Z.
Proof.
  intros Hhi. assert (0 <= x) by (unfold f0_max in Hhi; lra).
  rewrite bin_nonneg, level_high by assumption.
  destruct is_torch; [now apply (trunc_half_IZR 255) | apply (rint_IZR 255)].
Qed.

Lemma pitches_singleton (x : R) : 0 <= x -> pitches [x].
Proof. intros Hx. unfold pitches. apply List.Forall_cons; [exact Hx | apply List.Forall_nil]. Qed.

Lemma f0_to_coarse_one (is_torch : bool) (x : R) :
  0 <= x ->
  f0_to_coarse (array_of is_torch [x]) = Ok (array_of is_torch [bin is_torch x]).
Proof.
  intros Hx. apply (f0_to_coarse_pitches is_torch [x]);
    [discriminate | now apply pitches_singleton].
Qed.

(** *** Range of the result *)

(** C1. For every non-empty array (numpy array or torch tensor) of
    non-negative f0 values, [f0_to_coarse] returns: the assertion at its end
    does not fire, and every element of the result lies in [1, 255]. *)
Theorem f0_to_coarse_in_range (is_torch : bool) (xs : list R) :
  xs <> [] -> pitches xs ->
  exists bins,
    f0_to_coarse (array_of is_torch xs) = Ok (array_of is_torch bins)
    /\ length bins = length xs
    /\ Forall in_range bins.
Proof.
  intros Hne Hxs. exists (map (bin is_torch) xs). split; [|split].
  - now apply f0_to_coarse_pitches.
  - apply length_map.
  - now apply bins_in_range.
Qed.

Lemma f0_to_coarse_in_range_witness :
  exists bins,
    f0_to_coarse (NdArray [0; 440]) = Ok (NdArray bins)
    /\ length bins = 2%nat
    /\ Forall in_range bins.
Proof.
  apply (f0_to_coarse_in_range false [0; 440]).
  - discriminate.
  - unfold pitches. repeat (apply List.Forall_cons; [lra|]). apply List.Forall_nil.
Defined.

(** Outside the data model the assertion can fire: a value below -700 Hz
    makes [log] produce [nan]. *)
Lemma f0_to_coarse_nan : f0_to_coarse (NdArray [-800]) = Raise AssertionError.
Proof.
  rewrite f0_to_coarse_NdArray. unfold checked, map, bin, clamped, mel, np_log.
  destruct (Rlt_dec 0 (1 + -800 / 700)) as [H|_]; [lra|].
  destruct (Req_dec_T (1 + -800 / 700) 0) as [H|_]; [lra|].
  reflexivity.
Qed.

(** On an empty array the reduction inside the assertion raises. *)
Lemma f0_to_coarse_empty :
  f0_to_coarse (NdArray []) = Raise ValueError
  /\ f0_to_coarse (Tensor []) = Raise RuntimeError.
Proof. split; reflexivity. Qed.

(** *** Saturation *)

(** C2. [f0_to_coarse] sends 0 (silence) to bin 1, 50 ([f0_min]) to bin 1
    and 1100 ([f0_max]) to bin 255; every positive input below [f0_min]
    gives bin 1 and every input above [f0_max] gives bin 255, and no
    exception is raised. *)
Theorem f0_to_coarse_saturates (is_torch : bool) :
  f0_to_coarse (array_of is_torch [0]) = Ok (array_of is_torch [1%Z])
  /\ f0_to_coarse (array_of is_torch [50]) = Ok (array_of is_torch [1%Z])
  /\ f0_to_coarse (array_of is_torch [1100]) = Ok (array_of is_torch [255%Z])
  /\ (forall x, 0 < x < f0_min ->
       f0_to_coarse (array_of is_torch [x]) = Ok (array_of is_torch [1%Z]))
  /\ (forall x, f0_max < x ->
       f0_to_coarse (array_of is_torch [x]) = Ok (array_of is_torch [255%Z])).
Proof.
  unfold f0_min, f0_max. repeat split.
  - rewrite f0_to_coarse_one, bin_low; unfold f0_min; first [reflexivity | lra].
  - rewrite f0_to_coarse_one, bin_low; unfold f0_min; first [reflexivity | lra].
  - rewrite f0_to_coarse_one, bin_high; unfold f0_max; first [reflexivity | lra].
  - intros x Hx. rewrite f0_to_coarse_one, bin_low; unfold f0_min;
      first [reflexivity | lra].
  - intros x Hx. rewrite f0_to_coarse_one, bin_high; unfold f0_max;
      first [reflexivity | lra].
Qed.

Lemma f0_to_coarse_saturates_witness :
  f0_to_coarse (Tensor [25]) = Ok (Tensor [1%Z])
  /\ f0_to_coarse (Tensor [2000]) = Ok (Tensor [255%Z]).
Proof.
  destruct (f0_to_coarse_saturates true) as (_ & _ & _ & Hlo & Hhi). split.
  - apply (Hlo 25). unfold f0_min. lra.
  - apply (Hhi 2000). unfold f0_max. lra.
Defined.

(** *** Monotonicity *)

(** C3. On the nominal voiced range [f0_to_coarse] is monotonically
    non-decreasing: for 50 <= x <= y <= 1100 the bin of x is at most the
    bin of y. *)
Theorem f0_to_coarse_monotone (is_torch : bool) (x y : R) :
  f0_min <= x -> x <= y -> y <= f0_max ->
  exists bx by_,
    f0_to_coarse (array_of is_torch [x]) = Ok (array_of is_torch [bx])
    /\ f0_to_coarse (array_of is_torch [y]) = Ok (array_of is_torch [by_])
    /\ (bx <= by_)%Z.
Proof.
  unfold f0_min, f0_max. intros Hx Hxy Hy.
  exists (bin is_torch x), (bin is_torch y). split; [|split].
  - apply f0_to_coarse_one. lra.
  - apply f0_to_coarse_one. lra.
  - apply bin_mono; lra.
Qed.

Lemma f0_to_coarse_monotone_witness :
  exists bx by_,
    f0_to_coarse (NdArray [220]) = Ok (NdArray [bx])
    /\ f0_to_coarse (NdArray [440]) = Ok (NdArray [by_])
    /\ (bx <= by_)%Z.
Proof.
  apply (f0_to_coarse_monotone false 220 440); unfold f0_min, f0_max; lra.
Defined.

(** *** Scalars and arrays *)

(** Whenever the call on an array returns, each bin is what the call on the
    one-element array of that value returns. *)
Lemma f0_to_coarse_index (is_torch : bool) (xs : list R) (r : obj Z) :
  f0_to_coarse (array_of is_torch xs) = Ok r ->
  exists bins, r = array_of is_torch bins /\ length bins = length xs /\
    forall i x, xs !! i = Some x ->
      exists b, bins !! i = Some b
        /\ f0_to_coarse (array_of is_torch [x]) = Ok (array_of is_torch [b]).
Proof.
  rewrite f0_to_coarse_array. intros H.
  apply checked_inv in H as (-> & _ & Hall).
  exists (map (bin is_torch) xs). split; [reflexivity|]. split; [apply length_map|].
  intros i x Hi. exists (bin is_torch x). split.
  - now rewrite list_lookup_fmap, Hi.
  - rewrite f0_to_coarse_array. apply checked_ok; [discriminate|].
    apply List.Forall_cons; [|apply List.Forall_nil].
    rewrite List.Forall_forall in Hall. apply Hall, in_map.
    apply list_elem_of_In, list_elem_of_lookup. eauto.
Qed.

(** C4, the claim as stated fails: on a bare number the call raises
    [TypeError] at the first masked assignment, while the call on the
    one-element array of the same value returns a bin. *)
Lemma f0_to_coarse_scalar_raises :
  f0_to_coarse (Scalar 440) = Raise TypeError
  /\ exists b, f0_to_coarse (NdArray [440]) = Ok (NdArray [b]).
Proof.
  split; [reflexivity|]. exists (bin false 440).
  apply (f0_to_coarse_one false). lra.
Qed.

(** C4, amended. On arrays and tensors [f0_to_coarse] is element-wise:
    whenever the call on an array returns, the bin at every index [i] is the
    bin that the call on the one-element array [[a[i]]] returns, and on a
    non-empty array of non-negative values the call does return. A bare
    number is not accepted: the call raises [TypeError]. *)
Theorem f0_to_coarse_elementwise (is_torch : bool) (xs : list R) :
  (forall x, f0_to_coarse (Scalar x) = Raise TypeError)
  /\ (forall r, f0_to_coarse (array_of is_torch xs) = Ok r ->
      exists bins,
        r = array_of is_torch bins
        /\ length bins = length xs
        /\ forall i x, xs !! i = Some x ->
             exists b, bins !! i = Some b
               /\ f0_to_coarse (array_of is_torch [x])
                  = Ok (array_of is_torch [b]))
  /\ (xs <> [] -> pitches xs ->
      exists r, f0_to_coarse (array_of is_torch xs) = Ok r).
Proof.
  split; [intros x; apply f0_to_coarse_Scalar|]. split.
  - intros r Hrun. now apply f0_to_coarse_index.
  - intros Hne Hxs. eexists. now apply f0_to_coarse_pitches.
Qed.

Lemma f0_to_coarse_elementwise_witness :
  exists bins,
    length bins = 3%nat
    /\ forall i x, [0; 220; 440] !! i = Some x ->
         exists b, bins !! i = Some b
           /\ f0_to_coarse (Tensor [x]) = Ok (Tensor [b]).
Proof.
  destruct (f0_to_coarse_elementwise true [0; 220; 440]) as (_ & Hidx & Hrun).
  destruct Hrun as (r & Hr).
  - discriminate.
  - unfold pitches. repeat (apply List.Forall_cons; [lra|]). apply List.Forall_nil.
  - destruct (Hidx r Hr) as (bins & _ & Hlen & Hbins). exists bins. auto.
Defined.

(** *** Rounding by truncation *)

Lemma trunc_half_floor (r : R) :
  0 <= r ->
  trunc (r + 1 / 2)
  = if Rlt_dec (r - IZR (Int_part r)) (1 / 2) then Int_part r
    else (Int_part r + 1)%Z.
Proof.
  intros Hr. rewrite trunc_nonneg by lra. destruct (floor_bounds r) as [H1 H2].
  symmetry. destruct (Rlt_dec (r - IZR (Int_part r)) (1 / 2)).
  - apply Int_part_spec. lra.
  - apply Int_part_spec. rewrite plus_IZR. lra.
Qed.

Lemma Int_part_half (k : Z) : Int_part (IZR k + 1 / 2) = k.
Proof. symmetry. apply Int_part_spec. lra. Qed.

End Pitch.

(** ** The quantizer on a store: what the call leaves behind *)

Section Frame.

Lemma bind_ok {S A B} (c : M S A) (k : A -> M S B) (s s' : S) (a : A) :
  c s = (Ok a, s') -> bind c k s = k a s'.
Proof. intros H. unfold bind. now rewrite H. Qed.

Lemma bind_raise {S A B} (c : M S A) (k : A -> M S B) (s s' : S) (e : exn) :
  c s = (Raise e, s') -> bind c k s = (Raise e, s').
Proof. intros H. unfold bind. now rewrite H. Qed.

Lemma fresh_None (h : gmap nat cell) : h !! fresh (dom h) = None.
Proof. apply not_elem_of_dom, is_fresh. Qed.

Lemma read_real_run (h : gmap nat cell) (l : nat) (x : obj R) :
  h !! l = Some (CReal x) -> read_real l h = (Ok x, h).
Proof. intros H. unfold read_real. now rewrite H. Qed.

Lemma read_float_run (h : gmap nat cell) (l : nat) (o : obj float) :
  h !! l = Some (CFloat o) -> read_float l h = (Ok o, h).
Proof. intros H. unfold read_float. now rewrite H. Qed.

(** An assignment into the object at [l] changes that object and nothing
    else; when the statement raises, nothing at all. *)
Lemma in_place_ok (h : gmap nat cell) (l : nat) (o o' : obj float)
    (stmt : obj float -> result (obj float)) :
  h !! l = Some (CFloat o) -> stmt o = Ok o' ->
  in_place l stmt h = (Ok tt, <[l := CFloat o']> h).
Proof.
  intros H Hs. unfold in_place. rewrite (bind_ok _ _ _ _ _ (read_float_run h l o H)).
  unfold bind, lift. now rewrite Hs.
Qed.

Lemma in_place_raise (h : gmap nat cell) (l : nat) (o : obj float) (e : exn)
    (stmt : obj float -> result (obj float)) :
  h !! l = Some (CFloat o) -> stmt o = Raise e ->
  in_place l stmt h = (Raise e, h).
Proof.
  intros H Hs. unfold in_place. rewrite (bind_ok _ _ _ _ _ (read_float_run h l o H)).
  unfold bind, lift. now rewrite Hs.
Qed.

Lemma overwrite_fresh (h : gmap nat cell) (l : nat) (c c' : cell) :
  <[l := c']> (<[l := c]> h) = <[l := c']> h.
Proof. apply insert_insert_eq. Qed.

(** C8. [f0_to_coarse] has no effect on what the caller holds: whatever
    the call does, returning or raising, the input array and every other
    object that existed before are unchanged; the result is a freshly
    allocated array holding the bins. *)
Theorem f0_to_coarse_frame (h : gmap nat cell) (f0 : nat) (x : obj R) :
  h !! f0 = Some (CReal x) ->
  let (r, h') := f0_to_coarse_heap f0 h in
  h ⊆ h'
  /\ h' !! f0 = Some (CReal x)
  /\ match r with
     | Ok l =>
         h !! l = None
         /\ exists bins, f0_to_coarse x = Ok bins /\ h' !! l = Some (CInt bins)
     | Raise e => f0_to_coarse x = Raise e
     end.
Proof.
  intros Hf0. unfold f0_to_coarse_heap, f0_to_coarse.
  rewrite (bind_ok _ _ _ _ _ (read_real_run h f0 x Hf0)).
  set (is_torch := isinstance_Tensor x). set (m0 := to_mel is_torch x).
  unfold alloc at 1. unfold bind at 1.
  set (l := fresh (dom h)).
  assert (Hl : h !! l = None) by apply fresh_None.
  assert (Hext : forall c, h ⊆ <[l := c]> h) by (intros c; now apply insert_subseteq).
  assert (Hin : forall c, <[l := c]> h !! f0 = Some (CReal x))
    by (intros c; apply (lookup_weaken h); auto).
  destruct (rescale_step m0) as [m1|e] eqn:E1; cbn [rbind].
  2:{ rewrite (bind_raise _ _ _ _ _
                 (in_place_raise _ l m0 e _ (lookup_insert_eq _ _ _) E1)). auto. }
  rewrite (bind_ok _ _ _ _ _
             (in_place_ok _ l m0 m1 _ (lookup_insert_eq _ _ _) E1)), overwrite_fresh.
  destruct (floor_step m1) as [m2|e] eqn:E2; cbn [rbind].
  2:{ rewrite (bind_raise _ _ _ _ _
                 (in_place_raise _ l m1 e _ (lookup_insert_eq _ _ _) E2)). auto. }
  rewrite (bind_ok _ _ _ _ _
             (in_place_ok _ l m1 m2 _ (lookup_insert_eq _ _ _) E2)), overwrite_fresh.
  destruct (ceil_step m2) as [m3|e] eqn:E3; cbn [rbind].
  2:{ rewrite (bind_raise _ _ _ _ _
                 (in_place_raise _ l m2 e _ (lookup_insert_eq _ _ _) E3)). auto. }
  rewrite (bind_ok _ _ _ _ _
             (in_place_ok _ l m2 m3 _ (lookup_insert_eq _ _ _) E3)), overwrite_fresh.
  rewrite (bind_ok _ _ _ _ _
             (read_float_run _ l m3 (lookup_insert_eq _ _ _))).
  unfold alloc at 1. unfold bind at 1.
  set (h3 := <[l := CFloat m3]> h). set (l' := fresh (dom h3)).
  assert (Hl' : h3 !! l' = None) by apply fresh_None.
  assert (Hsub : h ⊆ <[l' := CInt (round_step is_torch m3)]> h3).
  { transitivity h3; [apply Hext | now apply insert_subseteq]. }
  unfold bind, lift, ret.
  destruct (assert_step (round_step is_torch m3)) as [[]|e]; cbn [rbind].
  - split; [exact Hsub|]. split; [now apply (lookup_weaken h)|]. split.
    + destruct (h !! l') eqn:Hh; [|reflexivity].
      apply (lookup_weaken _ h3) in Hh; [congruence | apply Hext].
    + eexists. split; [reflexivity | apply lookup_insert_eq].
  - split; [exact Hsub|]. split; [now apply (lookup_weaken h) | reflexivity].
Qed.

Lemma f0_to_coarse_frame_witness :
  let h : gmap nat cell := {[ 0%nat := CReal (NdArray [440%R]) ]} in
  let (r, h') := f0_to_coarse_heap 0 h in
  h ⊆ h'
  /\ h' !! 0%nat = Some (CReal (NdArray [440%R]))
  /\ match r with
     | Ok l =>
         h !! l = None
         /\ exists bins,
              f0_to_coarse (NdArray [440%R]) = Ok bins
              /\ h' !! l = Some (CInt bins)
     | Raise e => f0_to_coarse (NdArray [440%R]) = Raise e
     end.
Proof.
  apply (f0_to_coarse_frame {[ 0%nat := CReal (NdArray [440%R]) ]} 0
           (NdArray [440%R])).
  apply lookup_singleton_eq.
Defined.

End Frame.

(** ** The checkpoint finder *)

Section Finder.

Lemma sort_key_digit (f : string) :
  has_digit f = true -> sort_key f = Ok (digits_key f).
Proof.
  unfold has_digit, sort_key, digits_key, py_int.
  destruct (filter_str isdigit f); [discriminate | reflexivity].
Qed.

Lemma sort_key_no_digit (f : string) :
  has_digit f = false -> sort_key f = Raise ValueError.
Proof.
  unfold has_digit, sort_key, py_int.
  destruct (filter_str isdigit f); [reflexivity | discriminate].
Qed.

(** *** Computing the keys *)

Lemma decorate_digits (l : list string) :
  (forall f, In f l -> has_digit f = true) ->
  decorate sort_key l = Ok (map (fun f => (digits_key f, f)) l).
Proof.
  induction l as [|f l IH]; intros Hall; simpl; [reflexivity|].
  rewrite sort_key_digit by (apply Hall; now left). simpl.
  rewrite IH by (intros g Hg; apply Hall; now right). reflexivity.
Qed.

Lemma decorate_no_digit (l : list string) :
  (exists f, In f l /\ has_digit f = false) ->
  decorate sort_key l = Raise ValueError.
Proof.
  induction l as [|f l IH]; intros (g & Hg & Hno); [destruct Hg|].
  simpl. destruct (has_digit f) eqn:Hf.
  - rewrite (sort_key_digit f Hf). simpl.
    destruct Hg as [->|Hg]; [congruence|].
    rewrite IH by eauto. reflexivity.
  - now rewrite (sort_key_no_digit f Hf).
Qed.

(** *** The last element of the sorted list *)

Lemma insert_keyed_In (x y : Z * string) (s : list (Z * string)) :
  In y (insert_keyed x s) <-> y = x \/ In y s.
Proof.
  induction s as [|z s IH]; simpl; [intuition congruence|].
  destruct (fst x <=? fst z)%Z; simpl; [intuition congruence|].
  rewrite IH. intuition congruence.
Qed.

Lemma sort_keyed_In (y : Z * string) (d : list (Z * string)) :
  In y (sort_keyed d) <-> In y d.
Proof.
  induction d as [|x d IH]; simpl; [tauto|].
  rewrite insert_keyed_In, IH. intuition congruence.
Qed.

Lemma insert_keyed_last (x : Z * string) (s : list (Z * string)) :
  (forall b, last s = Some b -> forall y, In y s -> (fst y <= fst b)%Z) ->
  last (insert_keyed x s)
  = match last s with
    | None => Some x
    | Some b => if (fst x <=? fst b)%Z then Some b else Some x
    end.
Proof.
  induction s as [|y s IH]; intros Hinv; [reflexivity|].
  simpl insert_keyed. destruct (fst x <=? fst y)%Z eqn:Hxy.
  - rewrite (last_cons x (y :: s)).
    destruct (last (y :: s)) as [b|] eqn:Hb; [|reflexivity].
    apply Z.leb_le in Hxy.
    assert (fst y <= fst b)%Z by (apply (Hinv b eq_refl); now left).
    destruct (Z.leb_spec (fst x) (fst b)); [reflexivity | lia].
  - rewrite last_cons, IH.
    + rewrite (last_cons y s). destruct (last s) as [b|]; [|now rewrite Hxy].
      destruct (fst x <=? fst b)%Z; reflexivity.
    + intros b Hb z Hz. apply Hinv; [|now right].
      rewrite last_cons, Hb. reflexivity.
Qed.

(** The last element of the sorted list splits the original list: nothing
    before it has a larger key, everything after it has a smaller one. *)
Lemma sort_keyed_last (d : list (Z * string)) :
  match last (sort_keyed d) with
  | None => d = []
  | Some b =>
      exists d1 d2, d = d1 ++ b :: d2
        /\ (forall y, In y d1 -> (fst y <= fst b)%Z)
        /\ (forall y, In y d2 -> (fst y < fst b)%Z)
  end.
Proof.
  induction d as [|x d IH]; [reflexivity|].
  simpl sort_keyed. rewrite insert_keyed_last.
  - destruct (last (sort_keyed d)) as [b|] eqn:Hb.
    + destruct IH as (d1 & d2 & -> & H1 & H2).
      destruct (Z.leb_spec (fst x) (fst b)) as [Hle|Hlt].
      * exists (x :: d1), d2. split; [reflexivity|]. split; [|exact H2].
        intros y [<-|Hy]; [exact Hle | now apply H1].
      * exists [], (d1 ++ b :: d2). split; [reflexivity|]. split; [intros y []|].
        intros y Hy. apply in_app_or in Hy as [Hy|[<-|Hy]].
        -- specialize (H1 y Hy). lia.
        -- lia.
        -- specialize (H2 y Hy). lia.
    + subst d. exists [], []. split; [reflexivity|]. split; intros y [].
  - intros b Hb y Hy. rewrite Hb in IH. destruct IH as (d1 & d2 & -> & H1 & H2).
    apply sort_keyed_In, in_app_or in Hy as [Hy|[<-|Hy]].
    + now apply H1.
    + lia.
    + specialize (H2 y Hy). lia.
Qed.

Lemma last_map_snd (s : list (Z * string)) : last (map snd s) = snd <$> last s.
Proof.
  induction s as [|x s IH]; [reflexivity|].
  cbn [map]. rewrite !last_cons, IH. now destruct (last s).
Qed.

Lemma keyed_split (l : list string) (b : Z * string) (d1 d2 : list (Z * string)) :
  map (fun f => (digits_key f, f)) l = d1 ++ b :: d2 ->
  exists l1 l2, l = l1 ++ snd b :: l2
    /\ fst b = digits_key (snd b)
    /\ d1 = map (fun f => (digits_key f, f)) l1
    /\ d2 = map (fun f => (digits_key f, f)) l2.
Proof.
  intros H. apply map_eq_app in H as (l1 & l' & -> & <- & H).
  apply map_eq_cons in H as (x & l2 & -> & <- & <-).
  exists l1, l2. auto.
Qed.

(** *** The result of [latest_checkpoint_path] *)

(** C5, amended. [latest_checkpoint_path] sorts the paths that match the
    pattern by the integer that all the decimal digits of the path spell and
    returns the last one: no path before it in the listing has a larger key
    and every path after it has a smaller one. It raises [IndexError] when
    no path matches, and [ValueError] when a matching path has no digit. *)
Theorem latest_checkpoint_path_spec (glob_glob : string -> list string)
    (dir_path regex : string) (stdout : list string) :
  let f_list := glob_glob (os_path_join dir_path regex) in
  let run := latest_checkpoint_path glob_glob dir_path regex stdout in
  (f_list = [] -> run = (Raise IndexError, stdout))
  /\ ((exists f, In f f_list /\ has_digit f = false) ->
      run = (Raise ValueError, stdout))
  /\ (f_list <> [] -> (forall f, In f f_list -> has_digit f = true) ->
      exists x before after,
        run = (Ok x, stdout ++ [x])
        /\ f_list = before ++ x :: after
        /\ (forall f, In f before -> (digits_key f <= digits_key x)%Z)
        /\ (forall f, In f after -> (digits_key f < digits_key x)%Z)).
Proof.
  cbv zeta. unfold latest_checkpoint_path.
  generalize (glob_glob (os_path_join dir_path regex)) as f_list.
  intros f_list. repeat split.
  - intros ->. reflexivity.
  - intros Hno. unfold bind, lift, list_sort.
    now rewrite (decorate_no_digit f_list Hno).
  - intros Hne Hall. unfold bind, lift, list_sort.
    rewrite (decorate_digits f_list Hall). cbn [rbind].
    unfold getitem_last. rewrite last_map_snd.
    pose proof (sort_keyed_last (map (fun f => (digits_key f, f)) f_list)) as Hlast.
    destruct (last (sort_keyed _)) as [b|].
    + destruct Hlast as (d1 & d2 & Hd & H1 & H2).
      apply keyed_split in Hd as (l1 & l2 & -> & Hb & -> & ->).
      exists (snd b), l1, l2. split; [reflexivity|]. split; [reflexivity|].
      rewrite <- Hb. split; intros f Hf.
      * apply (H1 (digits_key f, f)), in_map_iff. eauto.
      * apply (H2 (digits_key f, f)), in_map_iff. eauto.
    + destruct f_list; [congruence | discriminate].
Qed.

Lemma latest_checkpoint_path_spec_witness :
  exists x before after,
    latest_checkpoint_path (listing_glob three_checkpoints) "ckpt" default_regex []
    = (Ok x, [] ++ [x])
    /\ listing_glob three_checkpoints (os_path_join "ckpt" default_regex)
       = before ++ x :: after
    /\ (forall f, In f before -> (digits_key f <= digits_key x)%Z)
    /\ (forall f, In f after -> (digits_key f < digits_key x)%Z).
Proof.
  destruct (latest_checkpoint_path_spec (listing_glob three_checkpoints)
              "ckpt" default_regex []) as (_ & _ & H).
  apply H.
  - discriminate.
  - intros f Hf. vm_compute in Hf.
    destruct Hf as [<-|[<-|[<-|[]]]]; reflexivity.
Defined.

(** The example of the specification: among [G_100.pth], [G_2000.pth] and
    [G_300.pth] the call returns (and prints) [G_2000.pth]. *)
Example latest_of_three :
  latest_checkpoint_path (listing_glob three_checkpoints) "ckpt" default_regex []
  = (Ok "ckpt/G_2000.pth"%string, ["ckpt/G_2000.pth"%string]).
Proof. reflexivity. Qed.

(** The key is spelled by all the digits of the path, not by the number
    after [G_]: [G_20_v3.pth] has key 203 and wins over [G_100.pth]. *)
Example latest_of_tagged :
  latest_checkpoint_path (listing_glob tagged_checkpoints) "ckpt" default_regex []
  = (Ok "ckpt/G_20_v3.pth"%string, ["ckpt/G_20_v3.pth"%string]).
Proof. reflexivity. Qed.

(** C5, the claim as stated fails: the call does not raise only when no
    file matches. [logs/G_best.pth] matches [G_*.pth], and the call raises
    [ValueError] because the path has no digit. *)
Lemma latest_checkpoint_path_digitless :
  listing_glob named_checkpoint (os_path_join "logs" default_regex)
  = ["logs/G_best.pth"%string]
  /\ latest_checkpoint_path (listing_glob named_checkpoint) "logs" default_regex []
     = (Raise ValueError, []).
Proof. split; reflexivity. Qed.

End Finder.

(** ** The checkpoint store *)

Section StoreProps.
Context {tensor optim_state : Type}.
Implicit Types (d saved items acc : list (string * tensor)).
Implicit Types (k : string) (v : tensor).

(** *** Dictionaries *)

Lemma dict_get_set k k' v d :
  dict_get k (dict_set k' v d) = if String.eqb k k' then Some v else dict_get k d.
Proof.
  induction d as [|[k0 v0] d IH]; simpl.
  - reflexivity.
  - destruct (String.eqb_spec k' k0) as [->|Hne]; simpl.
    + now destruct (String.eqb k k0).
    + destruct (String.eqb_spec k k0) as [->|Hne'].
      * destruct (String.eqb_spec k0 k'); [congruence | reflexivity].
      * exact IH.
Qed.

Lemma dict_has_In k d : dict_has k d = true <-> In k (dict_keys d).
Proof.
  unfold dict_has. induction d as [|[k0 v0] d IH]; simpl.
  - split; [discriminate | tauto].
  - destruct (String.eqb_spec k k0) as [->|Hne].
    + split; auto.
    + rewrite IH. split; [auto | intros [Heq|H]; [congruence | exact H]].
Qed.

Lemma dict_get_In k v d :
  NoDup (dict_keys d) -> In (k, v) d -> dict_get k d = Some v.
Proof.
  induction d as [|[k0 v0] d IH]; simpl; intros Hnd Hin; [destruct Hin|].
  apply NoDup_cons in Hnd as [Hk0 Hnd].
  destruct Hin as [[= -> ->]|Hin].
  - now rewrite String.eqb_refl.
  - destruct (String.eqb_spec k k0) as [->|Hne]; [|now apply IH].
    exfalso. apply Hk0. apply list_elem_of_In.
    change k0 with (fst (k0, v)). now apply in_map.
Qed.

(** *** The loop over the current state *)

Lemma restored_get_other saved items acc k :
  ~ In k (dict_keys items) ->
  dict_get k (restored saved items acc) = dict_get k acc.
Proof.
  revert acc. induction items as [|[k0 v0] items IH]; intros acc Hk; [reflexivity|].
  simpl in Hk. unfold restored in *. simpl fold_left. rewrite IH by tauto.
  rewrite dict_get_set. destruct (String.eqb_spec k k0); [|reflexivity].
  exfalso. apply Hk. now left.
Qed.

Lemma restored_get saved items acc k v :
  NoDup (dict_keys items) -> In (k, v) items ->
  dict_get k (restored saved items acc) = Some (default v (dict_get k saved)).
Proof.
  revert acc. induction items as [|[k0 v0] items IH]; intros acc Hnd Hin;
    [destruct Hin|].
  simpl in Hnd. apply NoDup_cons in Hnd as [Hk0 Hnd].
  unfold restored. simpl fold_left. destruct Hin as [[= -> ->]|Hin].
  - fold (restored saved items (dict_set k (default v (dict_get k saved)) acc)).
    rewrite restored_get_other by (now rewrite <- list_elem_of_In).
    now rewrite dict_get_set, String.eqb_refl.
  - now apply IH.
Qed.

Lemma restored_has saved items acc k :
  dict_has k (restored saved items acc) = true
  <-> In k (dict_keys acc) \/ In k (dict_keys items).
Proof.
  revert acc. induction items as [|[k0 v0] items IH]; intros acc.
  - unfold restored. simpl. rewrite dict_has_In. tauto.
  - unfold restored in *. simpl fold_left. rewrite IH.
    rewrite <- (dict_has_In k (dict_set _ _ _)), <- (dict_has_In k acc).
    unfold dict_has. rewrite dict_get_set. simpl dict_keys.
    destruct (String.eqb_spec k k0) as [->|Hne]; simpl.
    + split; auto.
    + split; [intros [H|H]; auto | intros [H|[H|H]]; auto; congruence].
Qed.

Lemma restore_loop_run saved items acc (w : world tensor optim_state) :
  restore_loop saved items acc w
  = (Ok (restored saved items acc),
     {| files := files w;
        log := log w ++ map NotInCheckpoint (missing_keys saved items) |}).
Proof.
  revert acc w. induction items as [|[k0 v0] items IH]; intros acc [fs lg].
  - unfold restored, missing_keys. simpl. now rewrite app_nil_r.
  - simpl restore_loop. unfold restored, missing_keys, dict_has, dict_getitem. simpl.
    destruct (dict_get k0 saved) as [sv|]; simpl.
    + apply IH.
    + unfold bind, logger_info, modify. simpl. rewrite IH. simpl.
      now rewrite <- app_assoc.
Qed.

(** *** Loading the new state into the module *)

Lemma load_state_dict_restored saved own :
  load_state_dict own (restored saved own [])
  = Ok (map (fun kv =>
               (fst kv, default (snd kv) (dict_get (fst kv) (restored saved own []))))
          own).
Proof.
  unfold load_state_dict.
  replace (forallb _ (dict_keys own) && forallb _ (dict_keys (restored saved own [])))
    with true; [reflexivity|].
  symmetry. apply andb_true_intro. split; apply forallb_forall; intros k Hk.
  - apply restored_has. now right.
  - apply dict_has_In. apply dict_has_In, restored_has in Hk as [[]|Hk]. exact Hk.
Qed.

Lemma load_state_dict_merged saved own :
  NoDup (dict_keys own) ->
  load_state_dict own (restored saved own []) = Ok (merged saved own).
Proof.
  intros Hnd. rewrite load_state_dict_restored. f_equal. unfold merged.
  apply map_ext_in. intros [k v] Hin. simpl.
  now rewrite (restored_get saved own [] k v Hnd Hin).
Qed.

Lemma model_load_state_dict_restored saved (model : nn_model tensor) :
  exists state',
    model_load_state_dict model (restored saved (state_dict_of model) [])
    = Ok (with_state model state')
    /\ (NoDup (dict_keys (state_dict_of model)) ->
        state' = merged saved (state_dict_of model)).
Proof.
  assert (Hsd : state_dict_of model = parameters model)
    by (unfold state_dict_of; now destruct (hasattr_module model)).
  rewrite Hsd. eexists. split.
  - unfold model_load_state_dict. rewrite load_state_dict_restored.
    destruct (hasattr_module model); reflexivity.
  - intros Hnd. pose proof (load_state_dict_merged saved _ Hnd) as H.
    rewrite load_state_dict_restored in H. now injection H.
Qed.

Lemma state_dict_of_with_state (model : nn_model tensor) state :
  state_dict_of (with_state model state) = state.
Proof. unfold state_dict_of, with_state. simpl. now destruct (hasattr_module model). Qed.

(** *** The run of [load_checkpoint] on an existing file *)

Lemma load_checkpoint_run (checkpoint_path : string) (model : nn_model tensor)
    (optimizer : option optim_state) (w : world tensor optim_state)
    (ck : checkpoint tensor optim_state) :
  files w !! checkpoint_path = Some ck ->
  exists state',
    load_checkpoint checkpoint_path model optimizer w
    = (Ok (with_state model state',
           match optimizer, ck_optimizer ck with
           | Some _, Some saved => Some saved
           | _, _ => optimizer
           end,
           match ck_learning_rate ck with
           | None => 0.0002%R
           | Some lr => lr
           end,
           match ck_iteration ck with
           | None => 1%Z
           | Some i => i
           end),
       {| files := files w;
          log := log w
                 ++ map NotInCheckpoint
                      (missing_keys (ck_model ck) (state_dict_of model))
                 ++ [LoadedCheckpoint checkpoint_path
                       match ck_iteration ck with
                       | None => 1%Z
                       | Some i => i
                       end] |})
    /\ (NoDup (dict_keys (state_dict_of model)) ->
        state' = merged (ck_model ck) (state_dict_of model)).
Proof.
  intros Hfile.
  destruct (model_load_state_dict_restored (ck_model ck) model) as (state' & Hload & Hst).
  exists state'. split; [|exact Hst].
  unfold load_checkpoint.
  unfold bind at 1. unfold os_path_isfile, gets. rewrite Hfile.
  rewrite bool_decide_eq_true_2 by eauto. cbn [negb].
  unfold bind at 1. unfold torch_load. rewrite Hfile.
  rewrite (bind_ok _ _ _ _ _ (restore_loop_run _ _ _ _)).
  unfold bind at 1. unfold lift. rewrite Hload.
  unfold bind, logger_info, modify, ret. cbn [files log].
  now rewrite <- app_assoc.
Qed.

Lemma merged_get saved d k :
  dict_get k (merged saved d)
  = (fun v => default v (dict_get k saved)) <$> dict_get k d.
Proof.
  induction d as [|[k0 v0] d IH]; simpl; [reflexivity|].
  destruct (String.eqb_spec k k0) as [->|Hne]; [reflexivity | exact IH].
Qed.


Lemma merged_self d : NoDup (dict_keys d) -> merged d d = d.
Proof.
  intros Hnd. unfold merged. transitivity (map (fun kv => kv) d); [|apply List.map_id].
  apply map_ext_in. intros [k v] Hin. simpl.
  now rewrite (dict_get_In k v d Hnd Hin).
Qed.

(** *** Missing keys *)


(** *** Defaults *)


(** *** The run of [save_checkpoint] *)

Lemma save_checkpoint_run (model : nn_model tensor) (optimizer_state : optim_state)
    (learning_rate : option R) (iteration : option Z) (checkpoint_path : string)
    (w : world tensor optim_state) :
  save_checkpoint model (Some optimizer_state) learning_rate iteration
    checkpoint_path w
  = (Ok tt,
     {| files := <[checkpoint_path :=
                    {| ck_model := state_dict_of model;
                       ck_iteration := iteration;
                       ck_optimizer := Some optimizer_state;
                       ck_learning_rate := learning_rate |}]> (files w);
        log := log w ++ [SavingState iteration checkpoint_path] |}).
Proof. reflexivity. Qed.

(** Without an optimizer [save_checkpoint] raises after its log message and
    writes nothing. *)
Lemma save_checkpoint_no_optimizer (model : nn_model tensor)
    (learning_rate : option R) (iteration : option Z) (checkpoint_path : string)
    (w : world tensor optim_state) :
  save_checkpoint model None learning_rate iteration checkpoint_path w
  = (Raise AttributeError,
     {| files := files w;
        log := log w ++ [SavingState iteration checkpoint_path] |}).
Proof. reflexivity. Qed.

End StoreProps.

(** *** The theorems on the example checkpoint *)




(** *** Round trip *)

Section RoundTrip.
Context {tensor optim_state : Type}.
Context (size : tensor -> list nat).
Implicit Types (d own new saved : list (string * tensor)).
Implicit Types (k : string).

Lemma dict_get_Some_In k (p : tensor) d : dict_get k d = Some p -> In (k, p) d.
Proof.
  induction d as [|[k0 v0] d IH]; simpl; [discriminate|].
  destruct (String.eqb_spec k k0) as [->|Hne].
  - intros [= ->]. now left.
  - intros H. right. now apply IH.
Qed.

Lemma filter_none {A} (f : A -> bool) (l : list A) :
  (forall a, In a l -> f a = false) -> List.filter f l = [].
Proof.
  induction l as [|a l IH]; intros H; simpl; [reflexivity|].
  rewrite (H a) by now left. apply IH. intros b Hb. apply H. now right.
Qed.

(** No parameter is reported when every tensor offered under the name of a
    parameter has that parameter's size. *)
Lemma size_mismatch_nil own new :
  NoDup (dict_keys own) ->
  (forall k p v, dict_get k own = Some p -> dict_get k new = Some v ->
     size v = size p) ->
  size_mismatch size own new = [].
Proof.
  intros Hnd Hfit. unfold size_mismatch. rewrite filter_none; [reflexivity|].
  intros [k p] Hin. simpl. destruct (dict_get k new) as [v|] eqn:Hv; [|reflexivity].
  rewrite bool_decide_eq_true_2; [reflexivity|].
  apply (Hfit k p v); [now apply dict_get_In | exact Hv].
Qed.

(** A tensor of another size under the name of a parameter is reported. *)
Lemma size_mismatch_cons own new k (p v : tensor) :
  dict_get k own = Some p -> dict_get k new = Some v -> size v <> size p ->
  size_mismatch size own new <> [].
Proof.
  intros Hp Hv Hne Hnil. apply dict_get_Some_In in Hp.
  unfold size_mismatch, dict_keys in Hnil. apply map_eq_nil in Hnil.
  assert (Hin : In (k, p)
                  (List.filter
                     (fun kv =>
                        match dict_get (fst kv) new with
                        | Some v => negb (bool_decide (size v = size (snd kv)))
                        | None => false
                        end) own)).
  { apply filter_In. split; [exact Hp|]. simpl. rewrite Hv.
    now rewrite bool_decide_eq_false_2. }
  rewrite Hnil in Hin. destruct Hin.
Qed.

(** The values the loop took from the current state have the right size, so
    the report on [new_state_dict] is the report on the saved state. *)
Lemma size_mismatch_restored saved own :
  NoDup (dict_keys own) ->
  size_mismatch size own (restored saved own []) = size_mismatch size own saved.
Proof.
  intros Hnd. unfold size_mismatch. f_equal. apply filter_ext_in.
  intros [k p] Hin. simpl. rewrite (restored_get saved own [] k p Hnd Hin).
  destruct (dict_get k saved) as [v|]; simpl; [reflexivity|].
  now rewrite bool_decide_eq_true_2.
Qed.

Lemma model_load_state_dict_sized_run saved (model : nn_model tensor) :
  NoDup (dict_keys (state_dict_of model)) ->
  model_load_state_dict_sized size model (restored saved (state_dict_of model) [])
  = match size_mismatch size (state_dict_of model) saved with
    | [] => Ok (with_state model (merged saved (state_dict_of model)))
    | _ :: _ => Raise RuntimeError
    end.
Proof.
  assert (Hsd : state_dict_of model = parameters model)
    by (unfold state_dict_of; now destruct (hasattr_module model)).
  rewrite Hsd. intros Hnd.
  unfold model_load_state_dict_sized, load_state_dict_sized.
  rewrite (size_mismatch_restored saved _ Hnd), (load_state_dict_merged saved _ Hnd).
  destruct (size_mismatch size (parameters model) saved);
    now destruct (hasattr_module model).
Qed.

(** The run of [load_checkpoint_sized] on an existing file. *)
Lemma load_checkpoint_sized_run (checkpoint_path : string) (model : nn_model tensor)
    (optimizer : option optim_state) (w : world tensor optim_state)
    (ck : checkpoint tensor optim_state) :
  files w !! checkpoint_path = Some ck ->
  NoDup (dict_keys (state_dict_of model)) ->
  load_checkpoint_sized size checkpoint_path model optimizer w
  = match size_mismatch size (state_dict_of model) (ck_model ck) with
    | [] =>
        (Ok (with_state model (merged (ck_model ck) (state_dict_of model)),
             match optimizer, ck_optimizer ck with
             | Some _, Some saved => Some saved
             | _, _ => optimizer
             end,
             match ck_learning_rate ck with
             | None => 0.0002%R
             | Some lr => lr
             end,
             match ck_iteration ck with
             | None => 1%Z
             | Some i => i
             end),
         {| files := files w;
            log := log w
                   ++ map NotInCheckpoint
                        (missing_keys (ck_model ck) (state_dict_of model))
                   ++ [LoadedCheckpoint checkpoint_path
                         match ck_iteration ck with
                         | None => 1%Z
                         | Some i => i
                         end] |})
    | _ :: _ =>
        (Raise RuntimeError,
         {| files := files w;
            log := log w
                   ++ map NotInCheckpoint
                        (missing_keys (ck_model ck) (state_dict_of model)) |})
    end.
Proof.
  intros Hfile Hnd. unfold load_checkpoint_sized.
  unfold bind at 1. unfold os_path_isfile, gets. rewrite Hfile.
  rewrite bool_decide_eq_true_2 by eauto. cbn [negb].
  unfold bind at 1. unfold torch_load. rewrite Hfile.
  rewrite (bind_ok _ _ _ _ _ (restore_loop_run _ _ _ _)).
  unfold bind at 1. unfold lift.
  rewrite (model_load_state_dict_sized_run _ _ Hnd).
  destruct (size_mismatch size (state_dict_of model) (ck_model ck)).
  - unfold bind, logger_info, modify, ret. cbn [files log].
    now rewrite <- app_assoc.
  - reflexivity.
Qed.

(** C7, amended. Checkpoint round trip: [save_checkpoint] with an optimizer
    writes the file, and [load_checkpoint] on that path then depends on the
    sizes. When every saved tensor whose name is a current parameter has that
    parameter's size, the load returns: a saved number for the learning rate
    or the iteration comes back as saved and a saved [None] comes back as
    0.0002 or 1, an optimizer that is passed takes the saved optimizer
    state, every key that the saved state and the current model both have
    holds the saved value, and a model with the saved model's state gets that
    state back. When some such tensor has another size, the load raises
    [RuntimeError]. *)
Theorem checkpoint_round_trip (saved_model current : nn_model tensor)
    (optimizer_state : optim_state) (optimizer : option optim_state)
    (learning_rate : option R) (iteration : option Z) (checkpoint_path : string)
    (w : world tensor optim_state) :
  NoDup (dict_keys (state_dict_of current)) ->
  exists w1,
    save_checkpoint saved_model (Some optimizer_state) learning_rate iteration
      checkpoint_path w = (Ok tt, w1)
    /\ ((forall k p v,
           dict_get k (state_dict_of current) = Some p ->
           dict_get k (state_dict_of saved_model) = Some v ->
           size v = size p) ->
        exists current' w2,
          load_checkpoint_sized size checkpoint_path current optimizer w1
          = (Ok (current',
                 match optimizer with
                 | Some _ => Some optimizer_state
                 | None => None
                 end,
                 match learning_rate with
                 | Some lr => lr
                 | None => 0.0002%R
                 end,
                 match iteration with
                 | Some i => i
                 | None => 1%Z
                 end), w2)
          /\ (forall k value,
                dict_get k (state_dict_of saved_model) = Some value ->
                In k (dict_keys (state_dict_of current)) ->
                dict_get k (state_dict_of current') = Some value)
          /\ (state_dict_of current = state_dict_of saved_model ->
              state_dict_of current' = state_dict_of saved_model))
    /\ (forall k p v,
          dict_get k (state_dict_of current) = Some p ->
          dict_get k (state_dict_of saved_model) = Some v ->
          size v <> size p ->
          exists w2,
            load_checkpoint_sized size checkpoint_path current optimizer w1
            = (Raise RuntimeError, w2)).
Proof.
  intros Hnd.
  set (ck := {| ck_model := state_dict_of saved_model;
                ck_iteration := iteration;
                ck_optimizer := Some optimizer_state;
                ck_learning_rate := learning_rate |}).
  set (w1 := {| files := <[checkpoint_path := ck]> (files w);
                log := log w ++ [SavingState iteration checkpoint_path] |}).
  assert (Hfile : files w1 !! checkpoint_path = Some ck) by apply lookup_insert_eq.
  pose proof (load_checkpoint_sized_run checkpoint_path current optimizer w1 ck
                Hfile Hnd) as Hrun.
  cbn [ck ck_model ck_iteration ck_optimizer ck_learning_rate] in Hrun.
  exists w1. split; [apply save_checkpoint_run|]. split.
  - intros Hfit. rewrite (size_mismatch_nil _ _ Hnd Hfit) in Hrun.
    do 2 eexists. split; [rewrite Hrun|split].
    + destruct optimizer; reflexivity.
    + rewrite state_dict_of_with_state. intros k value Hsaved Hk.
      rewrite merged_get. apply dict_has_In in Hk. unfold dict_has in Hk.
      destruct (dict_get k (state_dict_of current)); [|discriminate].
      simpl. now rewrite Hsaved.
    + rewrite state_dict_of_with_state. intros Heq. rewrite <- Heq.
      now apply merged_self.
  - intros k p v Hp Hv Hne. pose proof (size_mismatch_cons _ _ k p v Hp Hv Hne) as Hmis.
    destruct (size_mismatch size (state_dict_of current) (state_dict_of saved_model));
      [congruence|].
    eexists. exact Hrun.
Qed.

End RoundTrip.

Lemma fresh_model_keys : NoDup (dict_keys (state_dict_of fresh_model)).
Proof. apply (bool_decide_unpack _). reflexivity. Defined.

Lemma narrow_model_keys : NoDup (dict_keys (state_dict_of narrow_model)).
Proof. apply (bool_decide_unpack _). reflexivity. Defined.

(** C7, the claim as stated fails, in two ways. A checkpoint saved with
    [None] for the learning rate and the iteration loads as 0.0002 and 1,
    not as what was saved; and a checkpoint whose [weight] has two entries
    does not load into a model whose [weight] has one: the key is in both
    states, and the call raises [RuntimeError] instead of restoring it. *)
Lemma checkpoint_round_trip_fails :
  (exists w1 current' w2,
     save_checkpoint trained_model (Some tt) None None "logs/G_0.pth" no_files
     = (Ok tt, w1)
     /\ load_checkpoint_sized flat_size "logs/G_0.pth" fresh_model (Some tt) w1
        = (Ok (current', Some tt, 0.0002%R, 1%Z), w2))
  /\ (exists w1 w2,
        save_checkpoint trained_model (Some tt) (Some 0.0001%R) (Some 2000%Z)
          "logs/G_2000.pth" no_files = (Ok tt, w1)
        /\ dict_has "weight" (state_dict_of trained_model) = true
        /\ dict_has "weight" (state_dict_of narrow_model) = true
        /\ load_checkpoint_sized flat_size "logs/G_2000.pth" narrow_model
             (Some tt) w1 = (Raise RuntimeError, w2)).
Proof.
  split.
  - eexists. do 2 eexists. split; [apply save_checkpoint_run|].
    rewrite (load_checkpoint_sized_run flat_size "logs/G_0.pth" fresh_model
               (Some tt) _ _ (lookup_insert_eq _ _ _) fresh_model_keys).
    reflexivity.
  - eexists. eexists. split; [apply save_checkpoint_run|].
    split; [reflexivity|]. split; [reflexivity|].
    rewrite (load_checkpoint_sized_run flat_size "logs/G_2000.pth" narrow_model
               (Some tt) _ _ (lookup_insert_eq _ _ _) narrow_model_keys).
    reflexivity.
Qed.

Lemma checkpoint_round_trip_witness :
  exists w1 current' w2,
    save_checkpoint trained_model (Some tt) (Some 0.0001%R) None
      "logs/G_2000.pth" no_files = (Ok tt, w1)
    /\ load_checkpoint_sized flat_size "logs/G_2000.pth" fresh_model (Some tt) w1
       = (Ok (current', Some tt, 0.0001%R, 1%Z), w2)
    /\ dict_get "weight" (state_dict_of current') = Some [5; 6]%Z.
Proof.
  destruct (checkpoint_round_trip flat_size trained_model fresh_model tt (Some tt)
              (Some 0.0001%R) None "logs/G_2000.pth" no_files fresh_model_keys)
    as (w1 & Hsave & Hfit & _).
  destruct Hfit as (current' & w2 & Hload & Hkeys & _).
  - intros k p v Hp Hv. cbn in Hp, Hv.
    destruct (String.eqb k "weight").
    + injection Hp as <-. injection Hv as <-. reflexivity.
    + destruct (String.eqb_spec k "head") as [->|_]; discriminate.
  - exists w1, current', w2. split; [exact Hsave|]. split; [exact Hload|].
    apply Hkeys; [reflexivity|]. cbn. auto.
Defined.

(** ** The pitch quantizer beyond the data model *)

Section PitchExtras.
Local Open Scope R_scope.

(** *** Values below zero *)

Lemma clamped_below (x : R) : -700 <= x -> x <= 0 -> clamped x = Fin 1.
Proof.
  intros Hlo Hhi. unfold clamped, mel, np_log.
  destruct (Rlt_dec 0 (1 + x / 700)) as [Hpos|Hnpos].
  - assert (Hln : ln (1 + x / 700) <= 0).
    { destruct (Req_dec x 0) as [->|Hne].
      - replace (1 + 0 / 700) with 1 by lra. rewrite ln_1. lra.
      - left. rewrite <- ln_1. apply ln_increasing; lra. }
    unfold scale, rescale, gt_num.
    destruct (Rlt_dec 0 (1127 * ln (1 + x / 700))); [lra|].
    unfold clamp_lo, le_num.
    destruct (Rle_dec (1127 * ln (1 + x / 700)) 1); [|lra].
    unfold clamp_hi, gt_num. rewrite f0_bin_top.
    destruct (Rlt_dec 255 1); [lra | reflexivity].
  - destruct (Req_dec_T (1 + x / 700) 0) as [_|Hne]; [|lra].
    unfold scale, rescale, gt_num, clamp_lo, le_num, clamp_hi, gt_num.
    rewrite f0_bin_top. destruct (Rlt_dec 255 1); [lra | reflexivity].
Qed.

Lemma clamped_nan (x : R) : x < -700 -> clamped x = NaN.
Proof.
  intros Hx. unfold clamped, mel, np_log.
  destruct (Rlt_dec 0 (1 + x / 700)); [lra|].
  destruct (Req_dec_T (1 + x / 700) 0); [lra | reflexivity].
Qed.

Lemma round_one (is_torch : bool) :
  (if is_torch then torch_round (Fin 1) else numpy_round (Fin 1)) = 1%Z.
Proof.
  destruct is_torch; simpl.
  - apply (trunc_half_IZR 1). lia.
  - apply (rint_IZR 1).
Qed.

Lemma bin_below (is_torch : bool) (x : R) :
  -700 <= x -> x <= f0_min -> bin is_torch x = 1%Z.
Proof.
  intros Hlo Hhi. destruct (Rle_dec 0 x) as [Hpos|Hneg].
  - now apply bin_low.
  - unfold bin. rewrite clamped_below by lra. apply round_one.
Qed.

Lemma bin_nan (is_torch : bool) (x : R) : x < -700 -> bin is_torch x = int_min.
Proof. intros Hx. unfold bin. rewrite (clamped_nan x Hx). now destruct is_torch. Qed.

Lemma bin_loggable (is_torch : bool) (x : R) :
  -700 <= x -> in_range (bin is_torch x).
Proof.
  intros Hx. destruct (Rle_dec 0 x) as [Hpos|Hneg].
  - now apply bin_in_range.
  - rewrite bin_below by (unfold f0_min; lra). unfold in_range. lia.
Qed.

Lemma bin_mono_loggable (is_torch : bool) (x y : R) :
  -700 <= x -> x <= y -> (bin is_torch x <= bin is_torch y)%Z.
Proof.
  intros Hx Hxy. destruct (Rle_dec 0 x) as [Hpos|Hneg].
  - now apply bin_mono.
  - rewrite (bin_below is_torch x) by (unfold f0_min; lra).
    apply (bin_loggable is_torch y). lra.
Qed.

(** *** When the call returns *)

Lemma bins_loggable (is_torch : bool) (xs : list R) :
  loggable xs -> Forall in_range (map (bin is_torch) xs).
Proof.
  intros Hxs. apply List.Forall_map.
  eapply List.Forall_impl; [|exact Hxs]. intros x Hx. now apply bin_loggable.
Qed.

Lemma in_range_int_min : ~ in_range int_min.
Proof. unfold in_range, int_min. lia. Qed.

(** X1. What [f0_to_coarse] does on any array of finite values: on an empty
    array the reduction in the assertion raises ([ValueError] for numpy,
    [RuntimeError] for torch); on a non-empty array whose values are all at
    least -700 it returns an array of the same kind and length with every
    bin in [1, 255]; and as soon as one value is below -700 the assertion
    fails. *)
Theorem f0_to_coarse_outcome (is_torch : bool) (xs : list R) :
  (xs = [] ->
   f0_to_coarse (array_of is_torch xs)
   = Raise (if is_torch then RuntimeError else ValueError))
  /\ (xs <> [] -> loggable xs ->
      exists bins,
        f0_to_coarse (array_of is_torch xs) = Ok (array_of is_torch bins)
        /\ length bins = length xs
        /\ Forall in_range bins)
  /\ (Exists (fun x => x < -700) xs ->
      f0_to_coarse (array_of is_torch xs) = Raise AssertionError).
Proof.
  rewrite f0_to_coarse_array. repeat split.
  - intros ->. now destruct is_torch.
  - intros Hne Hxs. exists (map (bin is_torch) xs). split; [|split].
    + apply checked_ok; [|now apply bins_loggable].
      destruct xs; [congruence | discriminate].
    + apply length_map.
    + now apply bins_loggable.
  - intros Hex. unfold checked.
    destruct (map (bin is_torch) xs) as [|b bins] eqn:Hmap.
    + destruct xs; [inversion Hex | discriminate].
    + destruct (forallb in_rangeb (b :: bins)) eqn:Hall; [|reflexivity].
      exfalso. apply forallb_in_range in Hall. rewrite <- Hmap in Hall.
      apply List.Exists_exists in Hex as (x & Hin & Hx).
      rewrite List.Forall_forall in Hall.
      specialize (Hall (bin is_torch x) (in_map _ _ _ Hin)).
      rewrite (bin_nan is_torch x Hx) in Hall. now apply in_range_int_min.
Qed.

Lemma f0_to_coarse_outcome_witness :
  f0_to_coarse (NdArray []) = Raise ValueError
  /\ (exists bins,
        f0_to_coarse (NdArray [-100; 440]) = Ok (NdArray bins)
        /\ length bins = 2%nat
        /\ Forall in_range bins)
  /\ f0_to_coarse (NdArray [440; -701]) = Raise AssertionError.
Proof.
  split; [|split].
  - now apply (f0_to_coarse_outcome false []).
  - apply (f0_to_coarse_outcome false [-100; 440]); [discriminate|].
    unfold loggable. repeat (apply List.Forall_cons; [lra|]). apply List.Forall_nil.
  - apply (f0_to_coarse_outcome false [440; -701]).
    apply List.Exists_cons_tl, List.Exists_cons_hd. lra.
Defined.

(** X2. A negative value down to -700 Hz does not fail: together with
    every value up to [f0_min] it is given bin 1, the bin of silence. *)
Theorem f0_to_coarse_negative (is_torch : bool) (x : R) :
  -700 <= x -> x <= f0_min ->
  f0_to_coarse (array_of is_torch [x]) = Ok (array_of is_torch [1%Z]).
Proof.
  intros Hlo Hhi. rewrite f0_to_coarse_array. cbn [map].
  rewrite (bin_below is_torch x Hlo Hhi). now destruct is_torch.
Qed.

Lemma f0_to_coarse_negative_witness :
  f0_to_coarse (Tensor [-440]) = Ok (Tensor [1%Z]).
Proof. apply (f0_to_coarse_negative true (-440)); unfold f0_min; lra. Defined.

(** *** Order inside an array *)

(** X3. [f0_to_coarse] keeps the order of the values of an array: when all
    values are at least -700 and the value at [i] is at most the value at
    [j], the bin at [i] is at most the bin at [j]. *)
Theorem f0_to_coarse_order (is_torch : bool) (xs : list R) (i j : nat) (x y : R) :
  loggable xs -> xs !! i = Some x -> xs !! j = Some y -> x <= y ->
  exists bins bx by_,
    f0_to_coarse (array_of is_torch xs) = Ok (array_of is_torch bins)
    /\ bins !! i = Some bx /\ bins !! j = Some by_ /\ (bx <= by_)%Z.
Proof.
  intros Hxs Hi Hj Hxy.
  exists (map (bin is_torch) xs), (bin is_torch x), (bin is_torch y).
  split; [|split; [|split]].
  - rewrite f0_to_coarse_array. apply checked_ok; [|now apply bins_loggable].
    destruct xs; [discriminate Hi | discriminate].
  - now rewrite list_lookup_fmap, Hi.
  - now rewrite list_lookup_fmap, Hj.
  - apply bin_mono_loggable; [|exact Hxy].
    unfold loggable in Hxs. rewrite List.Forall_forall in Hxs.
    apply Hxs, list_elem_of_In, list_elem_of_lookup. eauto.
Qed.

Lemma f0_to_coarse_order_witness :
  exists bins bx by_,
    f0_to_coarse (NdArray [880; -3; 220]) = Ok (NdArray bins)
    /\ bins !! 1%nat = Some bx /\ bins !! 0%nat = Some by_ /\ (bx <= by_)%Z.
Proof.
  apply (f0_to_coarse_order false [880; -3; 220] 1 0 (-3) 880).
  - unfold loggable. repeat (apply List.Forall_cons; [lra|]). apply List.Forall_nil.
  - reflexivity.
  - reflexivity.
  - lra.
Defined.

(** *** Every bin is used *)

Lemma mel_hz_strict (x y : R) : 0 <= x -> x < y -> mel_hz x < mel_hz y.
Proof.
  intros Hx Hxy. unfold mel_hz.
  assert (ln (1 + x / 700) < ln (1 + y / 700)) by (apply ln_increasing; lra).
  lra.
Qed.

Lemma pitch_of_bin_mel (k : Z) :
  (1 <= k <= 255)%Z ->
  0 <= pitch_of_bin k
  /\ mel_hz (pitch_of_bin k)
     = f0_mel_min + (IZR k - 1) * (f0_mel_max - f0_mel_min) / 254.
Proof.
  intros [Hk1 Hk2]. apply IZR_le in Hk1, Hk2.
  pose proof f0_mel_min_pos as Hmin. pose proof f0_mel_span_pos as Hd.
  set (u := (f0_mel_min + (IZR k - 1) * (f0_mel_max - f0_mel_min) / 254) / 1127).
  assert (Hu : 0 < u) by (unfold u; nra).
  assert (He : 1 < exp u) by (rewrite <- exp_0; now apply exp_increasing).
  assert (Hp : pitch_of_bin k = 700 * (exp u - 1)) by reflexivity.
  split; [rewrite Hp; lra|].
  unfold mel_hz. rewrite Hp.
  replace (1 + 700 * (exp u - 1) / 700) with (exp u) by lra.
  rewrite ln_exp. unfold u. lra.
Qed.

Lemma pitch_of_bin_level (k : Z) :
  (1 <= k <= 255)%Z -> level (pitch_of_bin k) = IZR k.
Proof.
  intros Hk. destruct (pitch_of_bin_mel k Hk) as [_ Hmel].
  destruct Hk as [Hk1 Hk2]. apply IZR_le in Hk1, Hk2.
  pose proof f0_mel_min_pos as Hmin. pose proof f0_mel_span_pos as Hd.
  assert (Hs : stretch_mel (mel_hz (pitch_of_bin k)) = IZR k).
  { rewrite Hmel. unfold stretch_mel. rewrite f0_bin_width. field. lra. }
  unfold level. rewrite Hs, f0_bin_top.
  destruct (Rlt_dec 0 (mel_hz (pitch_of_bin k))) as [_|H]; [|rewrite Hmel in H; nra].
  destruct (Rle_dec (IZR k) 1); [lra|].
  destruct (Rlt_dec 255 (IZR k)); [lra | reflexivity].
Qed.

Lemma pitch_of_bin_nominal (k : Z) :
  (1 <= k <= 255)%Z -> f0_min <= pitch_of_bin k <= f0_max.
Proof.
  intros Hk. destruct (pitch_of_bin_mel k Hk) as [Hpos Hmel].
  destruct Hk as [Hk1 Hk2]. apply IZR_le in Hk1, Hk2.
  pose proof f0_mel_span_pos as Hd. split.
  - destruct (Rle_dec f0_min (pitch_of_bin k)) as [H|H]; [exact H|].
    apply Rnot_le_lt in H. apply (mel_hz_strict _ _ Hpos) in H.
    change (mel_hz f0_min) with f0_mel_min in H. nra.
  - destruct (Rle_dec (pitch_of_bin k) f0_max) as [H|H]; [exact H|].
    apply Rnot_le_lt in H. apply mel_hz_strict in H; [|unfold f0_max; lra].
    change (mel_hz f0_max) with f0_mel_max in H. nra.
Qed.

(** X4. No bin is dead, and the quantizer has a right inverse: for every
    bin [k] from 1 to 255 the pitch [pitch_of_bin k] lies in the nominal
    range [f0_min, f0_max] and [f0_to_coarse] sends it to [k], on both the
    numpy and the torch path. *)
Theorem f0_to_coarse_pitch_of_bin (is_torch : bool) (k : Z) :
  (1 <= k <= 255)%Z ->
  f0_min <= pitch_of_bin k <= f0_max
  /\ f0_to_coarse (array_of is_torch [pitch_of_bin k])
     = Ok (array_of is_torch [k]).
Proof.
  intros Hk. split; [now apply pitch_of_bin_nominal|].
  destruct (pitch_of_bin_mel k Hk) as [Hpos _].
  rewrite (f0_to_coarse_one is_torch _ Hpos), bin_nonneg by assumption.
  rewrite (pitch_of_bin_level k Hk).
  destruct is_torch; [rewrite trunc_half_IZR by lia | rewrite rint_IZR]; reflexivity.
Qed.

Lemma f0_to_coarse_pitch_of_bin_witness :
  f0_min <= pitch_of_bin 128 <= f0_max
  /\ f0_to_coarse (NdArray [pitch_of_bin 128]) = Ok (NdArray [128%Z]).
Proof. apply (f0_to_coarse_pitch_of_bin false 128). lia. Defined.

(** *** The two rounding rules on one clamped value *)

Ltac split_if :=
  match goal with
  | |- context [if ?d then _ else _] => destruct d
  end.

Lemma round_gap (r : R) :
  0 <= r -> (rint r <= trunc (r + 1 / 2) <= rint r + 1)%Z.
Proof.
  intros Hr. rewrite trunc_half_floor by assumption. unfold rint.
  repeat split_if; first [lia | exfalso; lra].
Qed.

Lemma round_differ (r : R) :
  0 <= r ->
  trunc (r + 1 / 2) <> rint r
  <-> exists k, Z.even k = true /\ r = IZR k + 1 / 2.
Proof.
  intros Hr. rewrite trunc_half_floor by assumption. unfold rint. split.
  - intros Hne. exists (Int_part r).
    destruct (Rlt_dec (r - IZR (Int_part r)) (1 / 2)); [congruence|].
    destruct (Rlt_dec (1 / 2) (r - IZR (Int_part r))); [congruence|].
    destruct (Z.even (Int_part r)); [split; [reflexivity | lra] | congruence].
  - intros (k & Heven & ->). rewrite Int_part_half, Heven.
    destruct (Rlt_dec (IZR k + 1 / 2 - IZR k) (1 / 2)); [lra|].
    destruct (Rlt_dec (1 / 2) (IZR k + 1 / 2 - IZR k)); [lra | lia].
Qed.

Lemma round_in_range (r : R) :
  1 <= r <= 255 -> in_range (trunc (r + 1 / 2)) /\ in_range (rint r).
Proof.
  intros Hr. destruct (floor_bounds r) as [H1 H2].
  assert (Hlo : (1 <= Int_part r)%Z).
  { apply Z.lt_succ_r, lt_IZR. rewrite succ_IZR. lra. }
  assert (Hhi : (Int_part r <= 255)%Z) by (apply le_IZR; lra).
  assert (Htop : Int_part r = 255%Z -> r = 255) by (intros H; rewrite H in H1; lra).
  rewrite trunc_half_floor by lra. unfold rint, in_range.
  destruct (Z.eq_dec (Int_part r) 255%Z) as [Heq|Hne].
  - specialize (Htop Heq). rewrite Heq.
    repeat split_if; first [lia | exfalso; lra].
  - repeat split_if; lia.
Qed.

(** X5. The two rounding rules on the same clamped values: where each value
    lies in [[1, 255]], as the two clamps leave it, [(v + 0.5).long()] and
    [np.rint(v)] both give bins in [[1, 255]], the tensor's bin is the
    numpy bin or the one above it, and the two differ exactly when the value
    is [k + 1/2] for an even [k]. *)
Theorem round_step_within_one (vs : list R) :
  Forall (fun v => 1 <= v <= 255) vs ->
  exists ts ns,
    round_step true (Tensor (map Fin vs)) = Tensor ts
    /\ round_step false (NdArray (map Fin vs)) = NdArray ns
    /\ forall i v, vs !! i = Some v ->
         exists t n,
           ts !! i = Some t /\ ns !! i = Some n
           /\ in_range t /\ in_range n
           /\ (n <= t <= n + 1)%Z
           /\ (t <> n <-> exists k, Z.even k = true /\ v = IZR k + 1 / 2).
Proof.
  intros Hvs.
  exists (map torch_round (map Fin vs)), (map numpy_round (map Fin vs)).
  split; [reflexivity|]. split; [reflexivity|].
  intros i v Hi. exists (trunc (v + 1 / 2)), (rint v).
  assert (Hv : 1 <= v <= 255).
  { rewrite List.Forall_forall in Hvs. apply Hvs.
    apply list_elem_of_In, list_elem_of_lookup. eauto. }
  rewrite !map_map. change (map ?f vs) with (f <$> vs).
  rewrite !list_lookup_fmap, Hi. cbn [fmap option_fmap option_map torch_round numpy_round].
  split; [reflexivity|]. split; [reflexivity|].
  destruct (round_in_range v Hv) as [Ht Hn].
  split; [exact Ht|]. split; [exact Hn|].
  split; [apply round_gap; lra | apply round_differ; lra].
Qed.

Lemma round_step_within_one_witness :
  exists ts ns,
    round_step true (Tensor (map Fin [1; 5 / 2; 203.4; 255])) = Tensor ts
    /\ round_step false (NdArray (map Fin [1; 5 / 2; 203.4; 255])) = NdArray ns
    /\ forall i v, [1; 5 / 2; 203.4; 255] !! i = Some v ->
         exists t n,
           ts !! i = Some t /\ ns !! i = Some n
           /\ in_range t /\ in_range n
           /\ (n <= t <= n + 1)%Z
           /\ (t <> n <-> exists k, Z.even k = true /\ v = IZR k + 1 / 2).
Proof.
  apply (round_step_within_one [1; 5 / 2; 203.4; 255]).
  repeat (apply List.Forall_cons; [lra|]). apply List.Forall_nil.
Defined.

End PitchExtras.

(** ** More on the checkpoint finder *)

Section FinderExtras.

(** *** Outcomes *)

Lemma decorate_snd (key : string -> result Z) (l : list string)
    (d : list (Z * string)) :
  decorate key l = Ok d -> map snd d = l.
Proof.
  revert d. induction l as [|f l IH]; intros d; simpl.
  - intros [= <-]. reflexivity.
  - destruct (key f) as [k|e]; simpl; [|discriminate].
    destruct (decorate key l) as [d'|e]; simpl; [|discriminate].
    intros [= <-]. simpl. f_equal. now apply IH.
Qed.

Lemma decorate_raises (l : list string) (e : exn) :
  decorate sort_key l = Raise e -> e = ValueError.
Proof.
  induction l as [|f l IH]; simpl; [discriminate|].
  destruct (has_digit f) eqn:Hf.
  - rewrite (sort_key_digit f Hf). simpl.
    destruct (decorate sort_key l); simpl; [discriminate|].
    intros [= <-]. now apply IH.
  - rewrite (sort_key_no_digit f Hf). simpl. now intros [= <-].
Qed.

Lemma list_sort_In (l sorted : list string) (x : string) :
  list_sort sort_key l = Ok sorted -> In x sorted -> In x l.
Proof.
  unfold list_sort. destruct (decorate sort_key l) as [d|e] eqn:Hd; simpl;
    [|discriminate].
  intros [= <-] Hx. apply in_map_iff in Hx as (y & <- & Hy).
  apply (proj1 (sort_keyed_In _ _)) in Hy. rewrite <- (decorate_snd _ _ _ Hd).
  apply in_map_iff. eauto.
Qed.

(** X6. Whatever the file system answers, [latest_checkpoint_path] either
    returns one of the matching paths and prints exactly that path, or it
    raises [IndexError] or [ValueError] and prints nothing. *)
Theorem latest_checkpoint_path_outcome (glob_glob : string -> list string)
    (dir_path regex : string) (stdout : list string) :
  match latest_checkpoint_path glob_glob dir_path regex stdout with
  | (Ok x, stdout') =>
      In x (glob_glob (os_path_join dir_path regex)) /\ stdout' = stdout ++ [x]
  | (Raise e, stdout') =>
      (e = IndexError \/ e = ValueError) /\ stdout' = stdout
  end.
Proof.
  unfold latest_checkpoint_path.
  generalize (glob_glob (os_path_join dir_path regex)) as f_list. intros f_list.
  unfold bind, lift.
  destruct (list_sort sort_key f_list) as [sorted|e] eqn:Hsort.
  - unfold getitem_last. destruct (last sorted) as [x|] eqn:Hlast.
    + simpl. split; [|reflexivity].
      apply (list_sort_In _ _ _ Hsort).
      apply list_elem_of_In, last_Some_elem_of, Hlast.
    + auto.
  - split; [|reflexivity]. right.
    unfold list_sort in Hsort.
    destruct (decorate sort_key f_list) eqn:Hd; simpl in Hsort; [discriminate|].
    injection Hsort as <-. now apply decorate_raises in Hd.
Qed.

(** *** The order of the listing *)

Lemma latest_run_digits (glob_glob : string -> list string)
    (dir_path regex : string) (stdout : list string) :
  let f_list := glob_glob (os_path_join dir_path regex) in
  f_list <> [] -> (forall f, In f f_list -> has_digit f = true) ->
  exists x,
    latest_checkpoint_path glob_glob dir_path regex stdout = (Ok x, stdout ++ [x])
    /\ In x f_list
    /\ forall f, In f f_list -> (digits_key f <= digits_key x)%Z.
Proof.
  cbv zeta. unfold latest_checkpoint_path.
  generalize (glob_glob (os_path_join dir_path regex)) as f_list.
  intros f_list Hne Hall. unfold bind, lift, list_sort.
  rewrite (decorate_digits f_list Hall). cbn [rbind].
  unfold getitem_last. rewrite last_map_snd.
  pose proof (sort_keyed_last (map (fun f => (digits_key f, f)) f_list)) as Hlast.
  destruct (last (sort_keyed _)) as [b|].
  - destruct Hlast as (d1 & d2 & Hd & H1 & H2).
    apply keyed_split in Hd as (l1 & l2 & -> & Hb & -> & ->).
    exists (snd b). split; [reflexivity|]. split.
    + apply in_or_app. right. now left.
    + rewrite <- Hb. intros f Hf. apply in_app_or in Hf as [Hf|[<-|Hf]].
      * apply (H1 (digits_key f, f)), in_map_iff. eauto.
      * lia.
      * assert (digits_key f < fst b)%Z; [|lia].
        apply (H2 (digits_key f, f)), in_map_iff. eauto.
  - destruct f_list; [congruence | discriminate].
Qed.

(** X7. When the matching paths have digits and pairwise different keys,
    the answer does not depend on the order in which the file system lists
    them: two listings with the same paths give the same result. *)
Theorem latest_checkpoint_path_listing_order (glob1 glob2 : string -> list string)
    (dir_path regex : string) (stdout : list string) :
  let pattern := os_path_join dir_path regex in
  Permutation (glob1 pattern) (glob2 pattern) ->
  (forall f, In f (glob1 pattern) -> has_digit f = true) ->
  (forall f g, In f (glob1 pattern) -> In g (glob1 pattern) ->
     digits_key f = digits_key g -> f = g) ->
  latest_checkpoint_path glob1 dir_path regex stdout
  = latest_checkpoint_path glob2 dir_path regex stdout.
Proof.
  cbv zeta. set (pattern := os_path_join dir_path regex).
  intros Hperm Hdig Hinj.
  assert (Hcase : glob1 pattern = [] \/ glob1 pattern <> [])
    by (destruct (glob1 pattern); [now left | now right]).
  destruct Hcase as [H1|H1].
  - assert (H2 : glob2 pattern = [])
      by (rewrite H1 in Hperm; now apply Permutation_nil in Hperm).
    unfold latest_checkpoint_path. fold pattern. now rewrite H1, H2.
  - assert (H2 : glob2 pattern <> []).
    { intros H. rewrite H in Hperm. symmetry in Hperm.
      now apply Permutation_nil in Hperm. }
    assert (Hdig2 : forall f, In f (glob2 pattern) -> has_digit f = true).
    { intros f Hf. apply Hdig.
      now apply (Permutation_in _ (Permutation_sym Hperm)). }
    destruct (latest_run_digits glob1 dir_path regex stdout H1 Hdig)
      as (x & -> & Hx & Hmax).
    destruct (latest_run_digits glob2 dir_path regex stdout H2 Hdig2)
      as (y & -> & Hy & Hmay).
    fold pattern in Hx, Hmax, Hy, Hmay.
    assert (Hy1 : In y (glob1 pattern))
      by now apply (Permutation_in _ (Permutation_sym Hperm)).
    assert (Hx2 : In x (glob2 pattern)) by now apply (Permutation_in _ Hperm).
    specialize (Hmax y Hy1). specialize (Hmay x Hx2).
    assert (x = y) as -> by (apply Hinj; auto; lia).
    reflexivity.
Qed.

Lemma latest_checkpoint_path_listing_order_witness :
  latest_checkpoint_path (listing_glob three_checkpoints) "ckpt" default_regex []
  = latest_checkpoint_path (listing_glob (rev three_checkpoints)) "ckpt"
      default_regex [].
Proof.
  apply (latest_checkpoint_path_listing_order (listing_glob three_checkpoints)
           (listing_glob (rev three_checkpoints)) "ckpt" default_regex []).
  - vm_compute. apply perm_trans with
      ["ckpt/G_2000.pth"%string; "ckpt/G_100.pth"%string; "ckpt/G_300.pth"%string].
    + apply perm_swap.
    + apply perm_trans with
        ["ckpt/G_2000.pth"%string; "ckpt/G_300.pth"%string; "ckpt/G_100.pth"%string].
      * apply perm_skip, perm_swap.
      * apply perm_swap.
  - intros f Hf. vm_compute in Hf.
    destruct Hf as [<-|[<-|[<-|[]]]]; reflexivity.
  - intros f g Hf Hg. vm_compute in Hf, Hg.
    destruct Hf as [<-|[<-|[<-|[]]]]; destruct Hg as [<-|[<-|[<-|[]]]];
      vm_compute; congruence.
Defined.

(** *** Digits of the directory *)

Lemma filter_str_app (p : ascii -> bool) (a b : string) :
  filter_str p (a +:+ b) = filter_str p a +:+ filter_str p b.
Proof.
  induction a as [|c a IH]; simpl; [reflexivity|].
  destruct (p c); simpl; now rewrite IH.
Qed.

Lemma int_digits_app (acc : Z) (s t : string) :
  int_digits acc (s +:+ t) = int_digits (int_digits acc s) t.
Proof. revert acc. induction s as [|c s IH]; intros acc; simpl; auto. Qed.

Lemma int_digits_shift (acc : Z) (t : string) :
  int_digits acc t
  = (acc * 10 ^ Z.of_nat (String.length t) + int_digits 0 t)%Z.
Proof.
  revert acc. induction t as [|c t IH]; intros acc.
  - simpl. lia.
  - cbn [int_digits String.length]. rewrite IH, (IH (10 * 0 + digit_val c)%Z).
    rewrite Nat2Z.inj_succ, Z.pow_succ_r by lia. ring.
Qed.

(** X8. The sort key counts the digits of the directory too: for a
    pattern-matched name that is not absolute, the key of
    [os.path.join(dir_path, name)] is the key of [dir_path] shifted left by
    the number of digits of [name], plus the key of [name]; when [dir_path]
    has no digit the key is that of [name] alone. *)
Theorem sort_key_directory (dir_path name : string) :
  String.prefix "/" name = false ->
  digits_key (os_path_join dir_path name)
  = (digits_key dir_path * 10 ^ Z.of_nat (String.length (filter_str isdigit name))
     + digits_key name)%Z
  /\ (has_digit dir_path = false ->
      sort_key (os_path_join dir_path name) = sort_key name).
Proof.
  intros Hrel.
  assert (Hfilter : filter_str isdigit (os_path_join dir_path name)
                    = filter_str isdigit dir_path +:+ filter_str isdigit name).
  { unfold os_path_join. rewrite Hrel.
    destruct (String.eqb dir_path "" || ends_with_slash dir_path).
    - apply filter_str_app.
    - now rewrite !filter_str_app. }
  split.
  - unfold digits_key. rewrite Hfilter, int_digits_app. apply int_digits_shift.
  - intros Hno. unfold sort_key. rewrite Hfilter.
    unfold has_digit in Hno.
    destruct (filter_str isdigit dir_path); [reflexivity | discriminate].
Qed.

Lemma sort_key_directory_witness :
  digits_key (os_path_join "logs/v2" "G_5.pth")
  = (digits_key "logs/v2"
     * 10 ^ Z.of_nat (String.length (filter_str isdigit "G_5.pth"))
     + digits_key "G_5.pth")%Z
  /\ (has_digit "logs/v2" = false ->
      sort_key (os_path_join "logs/v2" "G_5.pth") = sort_key "G_5.pth").
Proof. apply (sort_key_directory "logs/v2" "G_5.pth"). reflexivity. Defined.

End FinderExtras.

(** ** More on the checkpoint store *)

Section StoreExtras.
Context {tensor optim_state : Type}.
Implicit Types (d saved : list (string * tensor)).
Implicit Types (k : string) (v : tensor).

(** *** Files *)

Lemma load_checkpoint_no_file (checkpoint_path : string) (model : nn_model tensor)
    (optimizer : option optim_state) (w : world tensor optim_state) :
  files w !! checkpoint_path = None ->
  load_checkpoint checkpoint_path model optimizer w = (Raise AssertionError, w).
Proof.
  intros Hnone. unfold load_checkpoint, bind at 1.
  unfold os_path_isfile, gets. rewrite Hnone.
  rewrite bool_decide_eq_false_2 by (intros [x Hx]; discriminate).
  reflexivity.
Qed.

(** *** Loading twice *)




(** *** Saving more than once *)


(** *** What a save without numbers or without an optimizer gives *)


(** The value of a load is decided by the files alone. *)
Lemma load_checkpoint_value (checkpoint_path : string) (model : nn_model tensor)
    (optimizer : option optim_state) (w : world tensor optim_state) :
  fst (load_checkpoint checkpoint_path model optimizer w)
  = match files w !! checkpoint_path with
    | None => Raise AssertionError
    | Some ck =>
        let* model' :=
          model_load_state_dict model
            (restored (ck_model ck) (state_dict_of model) []) in
        Ok (model',
            match optimizer, ck_optimizer ck with
            | Some _, Some saved => Some saved
            | _, _ => optimizer
            end,
            match ck_learning_rate ck with
            | None => 0.0002%R
            | Some lr => lr
            end,
            match ck_iteration ck with
            | None => 1%Z
            | Some i => i
            end)
    end.
Proof.
  destruct (files w !! checkpoint_path) as [ck|] eqn:Hfile.
  - unfold load_checkpoint.
    unfold bind at 1. unfold os_path_isfile, gets. rewrite Hfile.
    rewrite bool_decide_eq_true_2 by eauto. cbn [negb].
    unfold bind at 1. unfold torch_load. rewrite Hfile.
    rewrite (bind_ok _ _ _ _ _ (restore_loop_run _ _ _ _)).
    unfold bind at 1. unfold lift.
    destruct (model_load_state_dict model _); reflexivity.
  - now rewrite load_checkpoint_no_file.
Qed.

(** X14. [save_checkpoint] needs an optimizer: called with [None] it
    raises [AttributeError] after its log message, no file is written or
    changed, and a load afterwards returns exactly what it returned
    before. *)
Theorem save_checkpoint_without_optimizer (model current : nn_model tensor)
    (optimizer : option optim_state) (learning_rate : option R)
    (iteration : option Z) (checkpoint_path load_path : string)
    (w : world tensor optim_state) :
  exists w',
    save_checkpoint model None learning_rate iteration checkpoint_path w
    = (Raise AttributeError, w')
    /\ files w' = files w
    /\ log w' = log w ++ [SavingState iteration checkpoint_path]
    /\ fst (load_checkpoint load_path current optimizer w')
       = fst (load_checkpoint load_path current optimizer w).
Proof.
  eexists. split; [apply save_checkpoint_no_optimizer|].
  split; [reflexivity|]. split; [reflexivity|].
  now rewrite !load_checkpoint_value.
Qed.

(** *** Keys on one side only *)


Lemma missing_keys_all saved d :
  (forall k, In k (dict_keys d) -> dict_has k saved = false) ->
  missing_keys saved d = dict_keys d.
Proof.
  unfold missing_keys. induction (dict_keys d) as [|k ks IH]; intros Hall;
    [reflexivity|].
  simpl. rewrite (Hall k) by now left. simpl. f_equal. apply IH.
  intros k' Hk'. apply Hall. now right.
Qed.

Lemma merged_disjoint saved d :
  (forall k, In k (dict_keys d) -> dict_has k saved = false) ->
  merged saved d = d.
Proof.
  intros Hall. unfold merged. transitivity (map (fun kv => kv) d);
    [|apply List.map_id].
  apply map_ext_in. intros [k v] Hin. simpl.
  assert (Hk : dict_has k saved = false).
  { apply Hall. change k with (fst (k, v)). now apply in_map. }
  unfold dict_has in Hk. now destruct (dict_get k saved).
Qed.


(** X16. A checkpoint that shares no key with the model changes nothing in
    it: the call still returns, the state of the model is exactly what it
    was, and one message per key of the model is logged, in the order of
    the keys, before the final one. *)
Theorem load_checkpoint_foreign (checkpoint_path : string)
    (model : nn_model tensor) (optimizer : option optim_state)
    (w : world tensor optim_state) (ck : checkpoint tensor optim_state) :
  files w !! checkpoint_path = Some ck ->
  NoDup (dict_keys (state_dict_of model)) ->
  (forall k, In k (dict_keys (state_dict_of model)) ->
     dict_has k (ck_model ck) = false) ->
  exists model' optimizer' learning_rate iteration w',
    load_checkpoint checkpoint_path model optimizer w
    = (Ok (model', optimizer', learning_rate, iteration), w')
    /\ state_dict_of model' = state_dict_of model
    /\ log w' = log w
                ++ map NotInCheckpoint (dict_keys (state_dict_of model))
                ++ [LoadedCheckpoint checkpoint_path iteration].
Proof.
  intros Hfile Hnd Hall.
  destruct (load_checkpoint_run checkpoint_path model optimizer w ck Hfile)
    as (state' & Hrun & Hst).
  specialize (Hst Hnd). subst state'.
  do 5 eexists. split; [exact Hrun|].
  rewrite state_dict_of_with_state. cbn [log].
  rewrite (missing_keys_all _ _ Hall). split; [|reflexivity].
  now apply merged_disjoint.
Qed.

End StoreExtras.

(** *** The theorems on the example checkpoint *)




Lemma load_checkpoint_foreign_witness :
  exists model' optimizer' learning_rate iteration w',
    load_checkpoint "logs/G_1.pth" bias_only_model None example_world
    = (Ok (model', optimizer', learning_rate, iteration), w')
    /\ state_dict_of model' = state_dict_of bias_only_model
    /\ log w' = log example_world
                ++ map NotInCheckpoint (dict_keys (state_dict_of bias_only_model))
                ++ [LoadedCheckpoint "logs/G_1.pth" iteration].
Proof.
  apply (load_checkpoint_foreign "logs/G_1.pth" bias_only_model None
           example_world example_checkpoint).
  - apply lookup_singleton_eq.
  - apply (bool_decide_unpack _). reflexivity.
  - intros k [<-|[]]. reflexivity.
Defined.

(** *** The outcomes of a load *)

Section Outcomes.
Context {tensor optim_state : Type}.
Context (size : tensor -> list nat).

Lemma load_checkpoint_sized_no_file (checkpoint_path : string)
    (model : nn_model tensor) (optimizer : option optim_state)
    (w : world tensor optim_state) :
  files w !! checkpoint_path = None ->
  load_checkpoint_sized size checkpoint_path model optimizer w
  = (Raise AssertionError, w).
Proof.
  intros Hnone. unfold load_checkpoint_sized, bind at 1.
  unfold os_path_isfile, gets. rewrite Hnone.
  rewrite bool_decide_eq_false_2 by (intros [x Hx]; discriminate).
  reflexivity.
Qed.

(** X9. [load_checkpoint] never writes a file, and on a path that is no file
    or holds a checkpoint as [save_checkpoint] writes it, it ends in one of
    three ways. Without the file it raises [AssertionError] before anything
    is logged. With the file, when every saved tensor under the name of a
    current parameter has that parameter's size, it returns, having logged
    one message per missing key and then the message that the checkpoint is
    loaded. When some such tensor has another size it raises [RuntimeError]
    after the messages for the missing keys, and the last message is not
    logged. *)
Theorem load_checkpoint_outcome (checkpoint_path : string)
    (model : nn_model tensor) (optimizer : option optim_state)
    (w : world tensor optim_state) :
  NoDup (dict_keys (state_dict_of model)) ->
  (files w !! checkpoint_path = None ->
   load_checkpoint_sized size checkpoint_path model optimizer w
   = (Raise AssertionError, w))
  /\ (forall ck,
        files w !! checkpoint_path = Some ck ->
        (forall k p v,
           dict_get k (state_dict_of model) = Some p ->
           dict_get k (ck_model ck) = Some v ->
           size v = size p) ->
        exists model' optimizer' learning_rate iteration w',
          load_checkpoint_sized size checkpoint_path model optimizer w
          = (Ok (model', optimizer', learning_rate, iteration), w')
          /\ files w' = files w
          /\ log w' = log w
                      ++ map NotInCheckpoint
                           (missing_keys (ck_model ck) (state_dict_of model))
                      ++ [LoadedCheckpoint checkpoint_path iteration])
  /\ (forall ck k p v,
        files w !! checkpoint_path = Some ck ->
        dict_get k (state_dict_of model) = Some p ->
        dict_get k (ck_model ck) = Some v ->
        size v <> size p ->
        exists w',
          load_checkpoint_sized size checkpoint_path model optimizer w
          = (Raise RuntimeError, w')
          /\ files w' = files w
          /\ log w' = log w
                      ++ map NotInCheckpoint
                           (missing_keys (ck_model ck) (state_dict_of model))).
Proof.
  intros Hnd. split; [apply load_checkpoint_sized_no_file|]. split.
  - intros ck Hfile Hfit.
    pose proof (load_checkpoint_sized_run size checkpoint_path model optimizer w ck
                  Hfile Hnd) as Hrun.
    rewrite (size_mismatch_nil size _ _ Hnd Hfit) in Hrun.
    do 5 eexists. split; [exact Hrun|]. split; reflexivity.
  - intros ck k p v Hfile Hp Hv Hne.
    pose proof (load_checkpoint_sized_run size checkpoint_path model optimizer w ck
                  Hfile Hnd) as Hrun.
    pose proof (size_mismatch_cons size _ _ k p v Hp Hv Hne) as Hmis.
    destruct (size_mismatch size (state_dict_of model) (ck_model ck)); [congruence|].
    eexists. split; [exact Hrun|]. split; reflexivity.
Qed.

End Outcomes.

Lemma load_checkpoint_outcome_witness :
  load_checkpoint_sized flat_size "logs/G_9.pth" fresh_model None trained_world
  = (Raise AssertionError, trained_world)
  /\ (exists model' optimizer' learning_rate iteration w',
        load_checkpoint_sized flat_size "logs/G_2000.pth" fresh_model None
          trained_world
        = (Ok (model', optimizer', learning_rate, iteration), w')
        /\ files w' = files trained_world
        /\ log w' = log trained_world
                    ++ map NotInCheckpoint
                         (missing_keys (ck_model trained_checkpoint)
                            (state_dict_of fresh_model))
                    ++ [LoadedCheckpoint "logs/G_2000.pth" iteration])
  /\ (exists w',
        load_checkpoint_sized flat_size "logs/G_2000.pth" narrow_model None
          trained_world
        = (Raise RuntimeError, w')
        /\ files w' = files trained_world
        /\ log w' = log trained_world
                    ++ map NotInCheckpoint
                         (missing_keys (ck_model trained_checkpoint)
                            (state_dict_of narrow_model))).
Proof.
  split; [|split].
  - apply (load_checkpoint_outcome flat_size "logs/G_9.pth" fresh_model None
             trained_world fresh_model_keys).
    reflexivity.
  - destruct (load_checkpoint_outcome flat_size "logs/G_2000.pth" fresh_model None
                trained_world fresh_model_keys) as (_ & Hok & _).
    apply (Hok trained_checkpoint); [apply lookup_singleton_eq|].
    intros k p v Hp Hv. cbn in Hp, Hv.
    destruct (String.eqb k "weight").
    + injection Hp as <-. injection Hv as <-. reflexivity.
    + destruct (String.eqb_spec k "head") as [->|_]; discriminate.
  - destruct (load_checkpoint_outcome flat_size "logs/G_2000.pth" narrow_model None
                trained_world narrow_model_keys) as (_ & _ & Hraise).
    apply (Hraise trained_checkpoint "weight"%string [0]%Z [5; 6]%Z);
      [apply lookup_singleton_eq | reflexivity | reflexivity | discriminate].
Defined.

(** *** A run of saves *)

Section Saves.
Context {tensor optim_state : Type}.

Lemma save_checkpoint_step (c : save_call tensor optim_state)
    (w : world tensor optim_state) :
  let w' := snd (save_checkpoint (call_model c) (call_optimizer c)
                   (call_learning_rate c) (call_iteration c) (call_path c) w) in
  files w ⊆ files w' \/ (exists ck, files w' = <[call_path c := ck]> (files w)).
Proof.
  destruct c as [m [st|] lr it path]; cbn [call_model call_optimizer
    call_learning_rate call_iteration call_path].
  - rewrite save_checkpoint_run. right. eexists. reflexivity.
  - rewrite save_checkpoint_no_optimizer. now left.
Qed.

Lemma save_checkpoint_step_log (c : save_call tensor optim_state)
    (w : world tensor optim_state) :
  log (snd (save_checkpoint (call_model c) (call_optimizer c)
              (call_learning_rate c) (call_iteration c) (call_path c) w))
  = log w ++ [SavingState (call_iteration c) (call_path c)].
Proof.
  destruct c as [m [st|] lr it path]; cbn [call_model call_optimizer
    call_learning_rate call_iteration call_path].
  - now rewrite save_checkpoint_run.
  - now rewrite save_checkpoint_no_optimizer.
Qed.

(** X12. [save_checkpoint] never removes a checkpoint: through any run of
    saves, whatever their arguments and whether they return or raise, every
    path that was a file is still a file at the end, so an
    [os.path.isfile] that held before the run holds after it; and every
    call has left its one message in the log, in the order of the calls. *)
Theorem save_checkpoint_keeps_files (calls : list (save_call tensor optim_state))
    (w : world tensor optim_state) :
  (forall path, is_Some (files w !! path) ->
     is_Some (files (save_all calls w) !! path))
  /\ (forall path, os_path_isfile path w = (Ok true, w) ->
        os_path_isfile path (save_all calls w) = (Ok true, save_all calls w))
  /\ log (save_all calls w)
     = log w ++ map (fun c => SavingState (call_iteration c) (call_path c)) calls.
Proof.
  assert (Hkeep : forall calls (w : world tensor optim_state) path,
            is_Some (files w !! path) ->
            is_Some (files (save_all calls w) !! path)).
  { clear. intros calls. induction calls as [|c calls IH]; intros w path Hfile;
      [exact Hfile|].
    cbn [save_all]. apply IH.
    destruct (save_checkpoint_step c w) as [Hsub|(ck & Heq)].
    - destruct Hfile as [x Hx]. exists x. now apply (lookup_weaken _ _ _ _ Hx).
    - rewrite Heq. destruct (decide (call_path c = path)) as [->|Hne].
      + rewrite lookup_insert_eq. eauto.
      + now rewrite lookup_insert_ne. }
  split; [apply Hkeep|]. split.
  - intros path. unfold os_path_isfile, gets. intros [= Hfile].
    apply bool_decide_eq_true_1 in Hfile.
    now rewrite (bool_decide_eq_true_2 _ (Hkeep calls w path Hfile)).
  - revert w. induction calls as [|c calls IH]; intros w; cbn [save_all map].
    + now rewrite app_nil_r.
    + rewrite IH, save_checkpoint_step_log. now rewrite <- app_assoc.
Qed.

End Saves.

(** ** The metric sink *)

Section SummarizeProps.
Context {scalar histogram image audio : Type}.

Lemma for_items_calls {V} (items : list (string * V))
    (mk : string -> V -> writer_call scalar histogram image audio)
    (writer : list (writer_call scalar histogram image audio)) :
  for_items items (fun k v => call (mk k v)) writer
  = (Ok tt, writer ++ map (fun kv => mk (fst kv) (snd kv)) items).
Proof.
  revert writer. induction items as [|[k v] items IH]; intros writer; simpl.
  - unfold ret. now rewrite app_nil_r.
  - unfold bind, call, modify. rewrite IH. now rewrite <- app_assoc.
Qed.

(** X17. [summarize] only appends to what the writer holds: it returns,
    keeps every earlier record in place, and adds one record per entry, the
    scalars first, then the histograms, the images (as HWC) and the audios
    (at the given rate), each group in the order of its dictionary and every
    record with the given step; with empty dictionaries it adds nothing. *)
Theorem summarize_appends (global_step : Z)
    (scalars : list (string * scalar)) (histograms : list (string * histogram))
    (images : list (string * image)) (audios : list (string * audio))
    (audio_sampling_rate : Z)
    (writer : list (writer_call scalar histogram image audio)) :
  exists added,
    summarize global_step scalars histograms images audios audio_sampling_rate
      writer = (Ok tt, writer ++ added)
    /\ added
       = map (fun kv => add_scalar (fst kv) (snd kv) global_step) scalars
         ++ map (fun kv => add_histogram (fst kv) (snd kv) global_step) histograms
         ++ map (fun kv => add_image (fst kv) (snd kv) global_step "HWC") images
         ++ map (fun kv => add_audio (fst kv) (snd kv) global_step
                             audio_sampling_rate) audios
    /\ length added
       = (length scalars + length histograms + length images + length audios)%nat
    /\ Forall (fun c => step_of c = global_step) added.
Proof.
  eexists. split; [|split; [reflexivity|split]].
  - unfold summarize.
    rewrite (bind_ok _ _ _ _ _
               (for_items_calls scalars (fun k v => add_scalar k v global_step) _)).
    rewrite (bind_ok _ _ _ _ _
               (for_items_calls histograms
                  (fun k v => add_histogram k v global_step) _)).
    rewrite (bind_ok _ _ _ _ _
               (for_items_calls images
                  (fun k v => add_image k v global_step "HWC") _)).
    rewrite (for_items_calls audios
               (fun k v => add_audio k v global_step audio_sampling_rate)).
    now rewrite <- !app_assoc.
  - rewrite !length_app, !length_map. lia.
  - rewrite !Forall_app. repeat split; apply List.Forall_map;
      apply List.Forall_forall; intros [k v] _; reflexivity.
Qed.

End SummarizeProps.

(** ** The plotters and the module's plotting flag *)

Section PlotProps.
Context {array pixels : Type}.
Variable rasterize : figure array -> pixels.

Lemma on_current_snoc (change : figure array -> figure array)
    (flag : bool) (bs ls : list string) (figs : list (figure array))
    (fig : figure array) :
  on_current change
    {| MATPLOTLIB_FLAG := flag; backends := bs; mpl_logger_levels := ls;
       figures := figs ++ [fig] |}
  = (Ok tt,
     {| MATPLOTLIB_FLAG := flag; backends := bs; mpl_logger_levels := ls;
        figures := figs ++ [change fig] |}).
Proof.
  unfold on_current. cbn [figures MATPLOTLIB_FLAG backends mpl_logger_levels].
  now rewrite last_snoc, removelast_last.
Qed.

Lemma canvas_pixels_snoc (flag : bool) (bs ls : list string)
    (figs : list (figure array)) (fig : figure array) :
  canvas_pixels rasterize
    {| MATPLOTLIB_FLAG := flag; backends := bs; mpl_logger_levels := ls;
       figures := figs ++ [fig] |}
  = (Ok (rasterize fig),
     {| MATPLOTLIB_FLAG := flag; backends := bs; mpl_logger_levels := ls;
        figures := figs ++ [fig] |}).
Proof. unfold canvas_pixels. cbn [figures]. now rewrite last_snoc. Qed.

Lemma use_agg_once_run (s : pyplot array) :
  use_agg_once s = (Ok tt, after_plot s).
Proof.
  unfold use_agg_once, after_plot. destruct s as [[] bs ls figs]; reflexivity.
Qed.

Lemma plot_spectrogram_run (spectrogram : array) (s : pyplot array) :
  plot_spectrogram_to_numpy rasterize spectrogram s
  = (Ok (rasterize (spectrogram_figure spectrogram)), after_plot s).
Proof.
  unfold plot_spectrogram_to_numpy.
  rewrite (bind_ok _ _ _ _ _ (use_agg_once_run s)).
  unfold after_plot at 1. unfold bind at 1. unfold subplots, modify.
  cbn [MATPLOTLIB_FLAG backends mpl_logger_levels figures].
  unfold imshow, add_colorbar, set_xlabel, set_ylabel, tight_layout, canvas_draw.
  repeat (rewrite (bind_ok _ _ _ _ _ (on_current_snoc _ _ _ _ _ _));
          cbn [figsize shown aspect origin interpolation colorbar xlabel ylabel
               tight drawn]).
  rewrite (bind_ok _ _ _ _ _ (canvas_pixels_snoc _ _ _ _ _)).
  unfold bind, close, modify, ret.
  cbn [MATPLOTLIB_FLAG backends mpl_logger_levels figures].
  now rewrite removelast_last.
Qed.

Lemma plot_alignment_run (alignment : array) (info : option string)
    (s : pyplot array) :
  plot_alignment_to_numpy rasterize alignment info s
  = (Ok (rasterize (alignment_figure alignment info)), after_plot s).
Proof.
  unfold plot_alignment_to_numpy.
  rewrite (bind_ok _ _ _ _ _ (use_agg_once_run s)).
  unfold after_plot at 1. unfold bind at 1. unfold subplots, modify.
  cbn [MATPLOTLIB_FLAG backends mpl_logger_levels figures].
  unfold imshow, add_colorbar, set_xlabel, set_ylabel, tight_layout, canvas_draw.
  repeat (rewrite (bind_ok _ _ _ _ _ (on_current_snoc _ _ _ _ _ _));
          cbn [figsize shown aspect origin interpolation colorbar xlabel ylabel
               tight drawn]).
  rewrite (bind_ok _ _ _ _ _ (canvas_pixels_snoc _ _ _ _ _)).
  unfold bind, close, modify, ret.
  cbn [MATPLOTLIB_FLAG backends mpl_logger_levels figures].
  now rewrite removelast_last.
Qed.

(** X18. A plotter cleans up after itself: in any state, with any figures
    already open, each of the two plotters returns the pixels of the figure
    it drew, and afterwards the open figures are exactly those that were
    open before. *)
Theorem plotters_leave_no_figure (spectrogram alignment : array)
    (info : option string) (s : pyplot array) :
  (exists s',
     plot_spectrogram_to_numpy rasterize spectrogram s
     = (Ok (rasterize (spectrogram_figure spectrogram)), s')
     /\ figures s' = figures s)
  /\ (exists s',
       plot_alignment_to_numpy rasterize alignment info s
       = (Ok (rasterize (alignment_figure alignment info)), s')
       /\ figures s' = figures s).
Proof.
  split; eexists.
  - split; [apply plot_spectrogram_run | reflexivity].
  - split; [apply plot_alignment_run | reflexivity].
Qed.

(** X19. The backend is chosen once: in every state the module can reach
    from its initial state by calls of the two plotters, in any number and
    order, no figure is open, and either no plotter has run yet and
    [matplotlib.use] has not been called, or the flag is set and
    [matplotlib.use] has been called exactly once, with ["Agg"], and the
    [matplotlib] logger has been set to [WARNING] exactly once. *)
Theorem backend_chosen_once (s : pyplot array) :
  plotted rasterize s ->
  figures s = []
  /\ ((MATPLOTLIB_FLAG s = false /\ backends s = [] /\ mpl_logger_levels s = [])
      \/ (MATPLOTLIB_FLAG s = true /\ backends s = ["Agg"%string]
          /\ mpl_logger_levels s = ["WARNING"%string])).
Proof.
  assert (Hstep : forall t : pyplot array,
    figures t = []
    /\ ((MATPLOTLIB_FLAG t = false /\ backends t = [] /\ mpl_logger_levels t = [])
        \/ (MATPLOTLIB_FLAG t = true /\ backends t = ["Agg"%string]
            /\ mpl_logger_levels t = ["WARNING"%string])) ->
    figures (after_plot t) = []
    /\ ((MATPLOTLIB_FLAG (after_plot t) = false /\ backends (after_plot t) = []
         /\ mpl_logger_levels (after_plot t) = [])
        \/ (MATPLOTLIB_FLAG (after_plot t) = true
            /\ backends (after_plot t) = ["Agg"%string]
            /\ mpl_logger_levels (after_plot t) = ["WARNING"%string]))).
  { intros t [Hfig [(Hflag & Hb & Hl)|(Hflag & Hb & Hl)]];
      (split; [exact Hfig|]); right; unfold after_plot; simpl;
      rewrite Hflag, Hb, Hl; auto. }
  induction 1 as [|s spectrogram _ IH|s alignment info _ IH].
  - split; [reflexivity|]. left. auto.
  - rewrite plot_spectrogram_run. apply Hstep, IH.
  - rewrite plot_alignment_run. apply Hstep, IH.
Qed.

End PlotProps.

Lemma backend_chosen_once_witness :
  let s := snd (plot_alignment_to_numpy canvas_size 0%nat None
                  (snd (plot_spectrogram_to_numpy canvas_size 1%nat
                          initial_pyplot))) in
  figures s = []
  /\ ((MATPLOTLIB_FLAG s = false /\ backends s = [] /\ mpl_logger_levels s = [])
      \/ (MATPLOTLIB_FLAG s = true /\ backends s = ["Agg"%string]
          /\ mpl_logger_levels s = ["WARNING"%string])).
Proof.
  apply (backend_chosen_once canvas_size).
  apply plotted_alignment, plotted_spectrogram, plotted_initial.
Defined.

(** ** The logger bootstrap *)

Section LoggerProps.

Lemma get_logger_run (model_dir filename : string) (e : logging_env) :
  exists e',
    get_logger model_dir filename e = (Ok (os_path_basename model_dir), e')
    /\ handlers_of e' (os_path_basename model_dir)
       = handlers_of e (os_path_basename model_dir)
         ++ [log_handler model_dir filename]
    /\ (forall name, name <> os_path_basename model_dir ->
        loggers e' !! name = loggers e !! name)
    /\ existing e'
       = (if bool_decide (model_dir ∈ existing e) then existing e
          else existing e ∪ list_to_set (parents "" model_dir) ∪ {[ model_dir ]})
         ∪ {[ os_path_join model_dir filename ]}
    /\ module_logger e' = Some (os_path_basename model_dir)
    /\ (logger_level <$> loggers e' !! os_path_basename model_dir)
       = Some (Some "DEBUG"%string).
Proof.
  unfold get_logger. set (name := os_path_basename model_dir).
  unfold bind at 1. unfold getLogger.
  destruct (loggers e !! name) as [l|] eqn:Hl.
  - unfold bind, bind_module_logger, setLevel, change_logger, modify,
      os_path_exists, gets, new_FileHandler, addHandler, ret.
    cbn [loggers existing module_logger].
    destruct (bool_decide (model_dir ∈ existing e)); cbn [negb];
      unfold os_makedirs, modify, ret; cbn [loggers existing module_logger];
      (eexists; split; [reflexivity|]);
      unfold handlers_of; cbn [loggers existing module_logger];
      rewrite !lookup_alter_eq, Hl; (repeat split; try reflexivity);
      intros n Hn; now rewrite !lookup_alter_ne by congruence.
  - unfold bind, bind_module_logger, setLevel, change_logger, modify,
      os_path_exists, gets, new_FileHandler, addHandler, ret.
    cbn [loggers existing module_logger].
    destruct (bool_decide (model_dir ∈ existing e)); cbn [negb];
      unfold os_makedirs, modify, ret; cbn [loggers existing module_logger];
      (eexists; split; [reflexivity|]);
      unfold handlers_of; cbn [loggers existing module_logger];
      rewrite !lookup_alter_eq, lookup_insert_eq, Hl;
      (repeat split; try reflexivity);
      intros n Hn;
      now rewrite !lookup_alter_ne, lookup_insert_ne by congruence.
Qed.

(** X20. Loggers are keyed by the last component of the directory, and
    handlers pile up: two calls whose directories end in the same component
    return the same logger, which afterwards has the handlers it had plus
    the file handler of each call, so that a record goes to both files (and
    twice to the same file when the two calls have the same arguments);
    loggers of other names are not touched. *)
Theorem get_logger_shared (dir1 file1 dir2 file2 : string) (e : logging_env) :
  os_path_basename dir1 = os_path_basename dir2 ->
  exists logger e1 e2,
    get_logger dir1 file1 e = (Ok logger, e1)
    /\ get_logger dir2 file2 e1 = (Ok logger, e2)
    /\ handlers_of e2 logger
       = handlers_of e logger ++ [log_handler dir1 file1; log_handler dir2 file2]
    /\ (forall name, name <> logger -> loggers e2 !! name = loggers e !! name).
Proof.
  intros Hname.
  destruct (get_logger_run dir1 file1 e) as (e1 & Hrun1 & Hh1 & Hframe1 & _).
  destruct (get_logger_run dir2 file2 e1) as (e2 & Hrun2 & Hh2 & Hframe2 & _).
  exists (os_path_basename dir1), e1, e2. rewrite Hname in *.
  split; [exact Hrun1|]. split; [exact Hrun2|]. split.
  - rewrite Hh2, Hh1, <- app_assoc. reflexivity.
  - intros name Hne. rewrite Hframe2, Hframe1 by exact Hne. reflexivity.
Qed.

Lemma get_logger_shared_witness :
  exists logger e1 e2,
    get_logger "logs/run" default_filename empty_logging = (Ok logger, e1)
    /\ get_logger "logs/run" default_filename e1 = (Ok logger, e2)
    /\ handlers_of e2 logger
       = handlers_of empty_logging logger
         ++ [log_handler "logs/run" default_filename;
             log_handler "logs/run" default_filename]
    /\ (forall name, name <> logger ->
        loggers e2 !! name = loggers empty_logging !! name).
Proof.
  apply (get_logger_shared "logs/run" default_filename "logs/run"
           default_filename empty_logging).
  reflexivity.
Defined.

Lemma has_slash_app (a b : string) : has_slash (a +:+ b) = has_slash a || has_slash b.
Proof.
  induction a as [|c a IH]; simpl; [reflexivity|].
  rewrite IH. now rewrite orb_assoc.
Qed.

Lemma os_path_basename_slash (p : string) : os_path_basename (p +:+ "/") = ""%string.
Proof.
  induction p as [|c p IH]; [reflexivity|].
  assert (Hs : has_slash (String c p +:+ "/") = true).
  { rewrite has_slash_app. simpl. now rewrite !orb_true_r. }
  change (String c p +:+ "/") with (String c (p +:+ "/")) in *.
  cbn [os_path_basename]. rewrite Hs. exact IH.
Qed.

(** X21. A directory written with a slash at its end has no last component:
    [get_logger] then returns the logger of the empty name, which is the
    root logger, binds the module's [logger] to it, and attaches the file
    handler to it. *)
Theorem get_logger_trailing_slash (model_dir filename : string) (e : logging_env) :
  exists e',
    get_logger (model_dir +:+ "/") filename e = (Ok ""%string, e')
    /\ module_logger e' = Some ""%string
    /\ handlers_of e' ""
       = handlers_of e "" ++ [log_handler (model_dir +:+ "/") filename].
Proof.
  destruct (get_logger_run (model_dir +:+ "/") filename e)
    as (e' & Hrun & Hh & _ & _ & Hmod & _).
  rewrite os_path_basename_slash in *. eauto.
Qed.

(** X22. Creating the directory is idempotent: after a call the directory
    and the log file exist, and a second call with the same arguments
    leaves the set of existing paths as the first call left it. *)
Theorem get_logger_makedirs_once (model_dir filename : string) (e : logging_env) :
  exists logger e1 e2,
    get_logger model_dir filename e = (Ok logger, e1)
    /\ get_logger model_dir filename e1 = (Ok logger, e2)
    /\ model_dir ∈ existing e1
    /\ os_path_join model_dir filename ∈ existing e1
    /\ existing e ⊆ existing e1
    /\ existing e2 = existing e1.
Proof.
  destruct (get_logger_run model_dir filename e) as (e1 & Hrun1 & _ & _ & Hex1 & _).
  destruct (get_logger_run model_dir filename e1) as (e2 & Hrun2 & _ & _ & Hex2 & _).
  assert (Hdir : model_dir ∈ existing e1).
  { rewrite Hex1. apply elem_of_union. left.
    destruct (bool_decide (model_dir ∈ existing e)) eqn:Hb.
    - now apply bool_decide_eq_true in Hb.
    - apply elem_of_union. right. now apply elem_of_singleton. }
  assert (Hfile : os_path_join model_dir filename ∈ existing e1).
  { rewrite Hex1. apply elem_of_union. right. now apply elem_of_singleton. }
  exists (os_path_basename model_dir), e1, e2.
  split; [exact Hrun1|]. split; [exact Hrun2|].
  split; [exact Hdir|]. split; [exact Hfile|]. split.
  - rewrite Hex1. intros p Hp. apply elem_of_union. left.
    destruct (bool_decide (model_dir ∈ existing e)); [exact Hp|].
    apply elem_of_union. left. apply elem_of_union. now left.
  - rewrite Hex2. rewrite bool_decide_eq_true_2 by exact Hdir.
    rewrite (comm_L (∪)). apply subseteq_union_1_L. intros p Hp.
    apply elem_of_singleton in Hp. now subst p.
Qed.

End LoggerProps.

(** ** Resizing a spectrogram *)

Section TransformProps.
Variable resize : tensor3 -> nat * nat -> tensor3.
Variable randn_like : tensor3 -> tensor3.
Hypothesis resize_sizes : resizes resize.

(** X23. [transform] keeps the shape of the spectrogram whatever height is
    asked for: for a height of at least one row it returns a tensor with
    the sizes of [mel]. The rows up to the smaller of the two heights are
    those of the resized tensor (so a taller result is cropped, without
    noise); when the height asked for is smaller, every row below is the
    last resized row plus a tenth of the noise drawn for that row. *)
Theorem transform_keeps_shape (mel : tensor3) (height : nat) :
  (0 < height)%nat ->
  let tgt := resize mel (height, cols mel) in
  let noise := randn_like (repeat_rows (rows mel - height) (last_row tgt)) in
  exists out,
    transform resize randn_like mel height = Ok out
    /\ channels out = channels mel /\ rows out = rows mel /\ cols out = cols mel
    /\ (forall i j k, (j < Nat.min height (rows mel))%nat ->
        value out i j k = value tgt i j k)
    /\ (forall i j k, (height <= j < rows mel)%nat ->
        value out i j k
        = (value tgt i (height - 1) k + value noise i (j - height) k / 10)%R).
Proof.
  intros Hpos tgt noise. unfold transform. fold tgt.
  destruct (resize_sizes mel (height, cols mel)) as (Hc & Hr & Hw).
  fold tgt in Hc, Hr, Hw. cbn [fst snd] in Hr, Hw.
  destruct (Nat.leb_spec (rows mel) height) as [Hle|Hlt].
  - eexists. split; [reflexivity|]. cbn [first_rows channels rows cols value].
    rewrite Hc, Hr, Hw. split; [reflexivity|]. split; [lia|].
    split; [reflexivity|]. split; [reflexivity|]. intros i j k Hj. lia.
  - unfold cat_rows. cbn [add_tenth repeat_rows last_row channels rows cols value].
    rewrite !Nat.eqb_refl. cbn [andb].
    eexists. split; [reflexivity|]. cbn [channels rows cols value].
    rewrite Hc, Hr, Hw. replace (Nat.min 1 height) with 1%nat by lia.
    split; [reflexivity|]. split; [lia|]. split; [reflexivity|]. split.
    + intros i j k Hj.
      destruct (Nat.ltb_spec j height) as [_|H]; [reflexivity | lia].
    + intros i j k Hj.
      destruct (Nat.ltb_spec j height) as [H|_]; [lia|].
      rewrite Nat.mod_1_r, Nat.add_0_r. reflexivity.
Qed.

End TransformProps.

Lemma nearest_resize_sizes : resizes nearest_resize.
Proof. intros t size. repeat split. Defined.

Lemma transform_keeps_shape_witness :
  let tgt := nearest_resize ramp (60, cols ramp)%nat in
  let noise := no_noise (repeat_rows (rows ramp - 60) (last_row tgt)) in
  exists out,
    transform nearest_resize no_noise ramp 60 = Ok out
    /\ channels out = channels ramp /\ rows out = rows ramp /\ cols out = cols ramp
    /\ (forall i j k, (j < Nat.min 60 (rows ramp))%nat ->
        value out i j k = value tgt i j k)
    /\ (forall i j k, (60 <= j < rows ramp)%nat ->
        value out i j k
        = (value tgt i (60 - 1) k + value noise i (j - 60) k / 10)%R).
Proof.
  apply (transform_keeps_shape nearest_resize no_noise nearest_resize_sizes
           ramp 60).
  lia.
Defined.
